(** * Sim-1: the perception-plan-act loop of the arena robot

    A shallow embedding of the navigation core of the repository:
    - [planner]  : agent/planner.py  (heading choice, bearing, goal test)
    - [vision]   : agent/vision.py   (heading sampler over an occupancy mask)
    - [server]   : server.py         (corner table, image analysis, push-based
                                      planner, socket handler, routes)
    - [agent]    : agent/agent.py    (polling navigator, episode loop)
    - [sim_api]  : agent/sim_api.py  (goal request, capture polling)

    Number model.  The planner is embedded twice.  [planner64] is
    [agent/planner.py] on the IEEE 754 binary64 numbers that Python
    computes with, rounding, overflow, [inf] and [nan] included; the
    statements on the values that [pick_heading] and
    [goal_bearing_from_position] return are made there.  Everywhere
    else Python floats are rendered as exact rationals [Q], with the
    sentinel [float("inf")] of [pick_heading] and the [nan] that numpy
    returns for the mean of an empty slice as explicit constructors;
    the statements made there are in the main on control flow,
    counters, integer pixel sums and constants; where one of them
    involves a computed value it is a statement on the exact value, and
    rounding is outside that model.  The transcendental library calls ([math.atan2], [np.tan]) and OpenCV's
    image filter are parameters of the sections that call them. *)

From Stdlib Require Import Floats.
From Stdlib Require Import QArith Qabs Qround Qminmax ZArith List Ascii String.
From Stdlib Require Import Sorted Psatz Lia.
From stdpp Require Import gmap strings sorting.

Set Warnings "-inexact-float".

Local Open Scope Q_scope.

(** ** Numbers *)

(** [a < b] on floats, as a boolean. *)
Definition Qltb (a b : Q) : bool := negb (Qle_bool b a).

(** A float that is either finite or [float("inf")]. *)
Inductive score : Type :=
  | Finite (q : Q)
  | Inf.

(** [s < best] for a finite [s]. *)
Definition lt_score (s : Q) (best : score) : bool :=
  match best with
  | Finite b => Qltb s b
  | Inf => true
  end.

(** [best == float("inf")]. *)
Definition is_inf (best : score) : bool :=
  match best with
  | Finite _ => false
  | Inf => true
  end.

(** A relative motion command [{"turn": t, "distance": d}]. *)
Record Command : Type := mkCommand { turn : Q; distance : Q }.

(** A float that is either a number or [nan]: the obstacle cost that
    [np.mean] yields ([nan] on an empty slice), and anything computed
    from it. *)
Inductive float : Type :=
  | Num (q : Q)
  | NaN.

(** [w * x], [x + q] and [x < q] with a second operand that is a number;
    every comparison with [nan] is false. *)
Definition fmul (w : Q) (x : float) : float :=
  match x with Num q => Num (w * q) | NaN => NaN end.
Definition fadd (x : float) (q : Q) : float :=
  match x with Num p => Num (p + q) | NaN => NaN end.
Definition flt (x : float) (q : Q) : bool :=
  match x with Num p => Qltb p q | NaN => false end.

(** ** Strings *)

(** [s.split(",", 1)] on a string with a comma: what stands before the
    first comma and what follows it; [None] when there is no comma
    (the split then has one element only). *)
Fixpoint split_comma (s : string) : option (string * string) :=
  match s with
  | EmptyString => None
  | String a s' =>
      if Ascii.eqb a ","%char then Some (EmptyString, s')
      else match split_comma s' with
           | Some (before, rest) => Some (String a before, rest)
           | None => None
           end
  end.

(** ** agent/planner.py *)
Module planner.

(** An entry [(angle_deg, obstacle_cost)] of a cost field. *)
Definition heading : Type := (Q * float)%type.

(** The loop-carried pair [(best_angle, best_cost)]. *)
Definition best : Type := (Q * score)%type.

(** [obs_w * oc + goal_w * (abs(ang - goal_angle_deg) / 60.0)]. *)
Definition heading_score (goal_angle_deg obs_w goal_w : Q) (e : heading) : float :=
  let ang_err := Qabs (fst e - goal_angle_deg) / 60 in
  fadd (fmul obs_w (snd e)) (goal_w * ang_err).

(** Body of the first loop: only entries with [oc < safe_thr] compete.
    A [nan] score never satisfies [score < best_cost]. *)
Definition safe_step (goal_angle_deg obs_w goal_w safe_thr : Q)
    (st : best) (e : heading) : best :=
  match heading_score goal_angle_deg obs_w goal_w e with
  | Num s =>
      if flt (snd e) safe_thr && lt_score s (snd st) then (fst e, Finite s) else st
  | NaN => st
  end.

(** Body of the second loop: every entry competes. *)
Definition any_step (goal_angle_deg obs_w goal_w : Q)
    (st : best) (e : heading) : best :=
  match heading_score goal_angle_deg obs_w goal_w e with
  | Num s => if lt_score s (snd st) then (fst e, Finite s) else st
  | NaN => st
  end.

Definition pick_heading (heading_costs : list heading)
    (goal_angle_deg obs_w goal_w safe_thr : Q) : best :=
  let st := fold_left (safe_step goal_angle_deg obs_w goal_w safe_thr)
                      heading_costs (0, Inf) in
  if is_inf (snd st)
  then fold_left (any_step goal_angle_deg obs_w goal_w) heading_costs st
  else st.

(** Default keyword arguments of [pick_heading]. *)
Definition default_obs_w : Q := 12 # 10.
Definition default_goal_w : Q := 6 # 10.
Definition default_safe_thr : Q := 35 # 100.

Definition step_from_heading (angle_deg step_dist : Q) : Command :=
  mkCommand angle_deg step_dist.

(** [goal_bearing_from_position], generic in the carrier [F] of the
    coordinates.  [goal["x"]] raises [KeyError] on a missing key
    ([None] here); [pos.get("x", 0.0)] falls back to zero.
    [atan2_deg dx dz] stands for [math.degrees(math.atan2(dx, dz))]. *)
Section bearing.
Context {F : Type}.
Variable fsub : F -> F -> F.
Variable fzero : F.
Variable atan2_deg : F -> F -> F.

Definition goal_bearing_from_position (pos goal : gmap string F) : option F :=
  match goal !! "x"%string, goal !! "z"%string with
  | Some gx, Some gz =>
      let dx := fsub gx (default fzero (pos !! "x"%string)) in
      let dz := fsub gz (default fzero (pos !! "z"%string)) in
      Some (atan2_deg dx dz)
  | _, _ => None
  end.
End bearing.

(** [(dx*dx + dz*dz) ** 0.5 <= radius].  The square root is not
    rational; over the reals the test is the same as [0 <= radius] and
    [dx*dx + dz*dz <= radius*radius], which is what is computed. *)
Definition close_to_goal (pos goal : gmap string Q) (radius : Q) : option bool :=
  match goal !! "x"%string, goal !! "z"%string with
  | Some gx, Some gz =>
      let dx := gx - default 0 (pos !! "x"%string) in
      let dz := gz - default 0 (pos !! "z"%string) in
      Some (Qle_bool 0 radius && Qle_bool (dx * dx + dz * dz) (radius * radius))
  | _, _ => None
  end.

End planner.

(** ** agent/vision.py *)
Module vision.

(** A 2-D [uint8] array: its shape and its entries [mask[y, x]]. *)
Record Mask : Type := mkMask {
  height : nat;
  width : nat;
  pixel : nat -> nat -> Z
}.

(** [np.linspace(start, stop, num)] with the default [endpoint=True]:
    [start + i * step], and the last sample set to [stop]. *)
Definition linspace (start stop : Q) (num : nat) : list Q :=
  match num with
  | O => []
  | S O => [start]
  | S n =>
      let step := (stop - start) / inject_Z (Z.of_nat n) in
      map (fun i => if Nat.eqb i n then stop
                    else start + inject_Z (Z.of_nat i) * step)
          (seq 0 num)
  end.

(** [int(x)] on a float: truncation toward zero. *)
Definition Qtrunc (x : Q) : Z :=
  if Qltb x 0 then Qceiling x else Qfloor x.

(** [np.clip(col, lo, hi)], that is [minimum(maximum(col, lo), hi)]. *)
Definition clip (col lo hi : Z) : Z := Z.min (Z.max col lo) hi.

(** [float(np.mean(col_vals > 0))]: the mean of an empty slice is [nan]. *)
Definition mean_positive (col_vals : list Z) : float :=
  match col_vals with
  | [] => NaN
  | _ => Num (inject_Z (Z.of_nat (length (List.filter (fun v => Z.ltb 0 v) col_vals)))
              / inject_Z (Z.of_nat (length col_vals)))
  end.

Section sampler.
(** [tan_deg a] stands for [np.tan(np.deg2rad(a))]. *)
Variable tan_deg : Q -> Q.

(** The column a heading projects to, clamped to the image. *)
Definition column (w : nat) (a : Q) : Z :=
  let cx := Z.of_nat (w / 2) in
  let col := Qtrunc (inject_Z cx + tan_deg a * ((3 # 10) * inject_Z (Z.of_nat w))) in
  clip col 0 (Z.of_nat w - 1).

(** [band[:, col]] for [band = mask[h // 3 : (h // 3) * 2, :]].  With
    [w = 0] the clamped column is [-1] and the read raises
    [IndexError]. *)
Definition band_column (mask : Mask) (col : Z) : option (list Z) :=
  let h := height mask in
  if (0 <=? col)%Z && (col <? Z.of_nat (width mask))%Z
  then Some (map (fun y => pixel mask y (Z.to_nat col))
                 (seq (h / 3) ((h / 3) * 2 - h / 3)))
  else None.

Definition sample_headings (mask : Mask) (num : nat) (fov_deg : Q)
    : option (list planner.heading) :=
  let w := width mask in
  let angles := linspace (- fov_deg / 2) (fov_deg / 2) num in
  mapM (fun a =>
          col_vals ← band_column mask (column w a);
          Some (a, mean_positive col_vals))
       angles.
End sampler.

End vision.

(** ** server.py *)
Module server.

Definition FLOOR_HALF : Z := 50.

(** [str.upper()] on ASCII letters. *)
Definition upper_ascii (a : ascii) : ascii :=
  let n := nat_of_ascii a in
  if (97 <=? n)%nat && (n <=? 122)%nat then ascii_of_nat (n - 32) else a.

Fixpoint upper (s : string) : string :=
  match s with
  | EmptyString => EmptyString
  | String a s' => String (upper_ascii a) (upper s')
  end.

(** [sub in s]. *)
Definition contains (sub s : string) : bool :=
  match String.index 0 sub s with Some _ => true | None => false end.

(** [c in (a, b, ...)]. *)
Definition one_of (c : string) (names : list string) : bool :=
  existsb (String.eqb c) names.

Definition corner_to_coords (corner : string) (margin : Z) : gmap string Z :=
  let c := upper corner in
  let far := (FLOOR_HALF - margin)%Z in
  let x := if contains "E" c then far else (- far)%Z in
  let z := if contains "S" c || contains "B" c then far else (- far)%Z in
  let '(x, z) := if one_of c ["NE"; "EN"; "TR"] then (far, (- far)%Z) else (x, z) in
  let '(x, z) := if one_of c ["NW"; "WN"; "TL"] then ((- far)%Z, (- far)%Z) else (x, z) in
  let '(x, z) := if one_of c ["SE"; "ES"; "BR"] then (far, far) else (x, z) in
  let '(x, z) := if one_of c ["SW"; "WS"; "BL"] then ((- far)%Z, far) else (x, z) in
  {[ "x" := x; "y" := 0%Z; "z" := z ]}.

(** Default of the keyword argument [margin]. *)
Definition default_margin : Z := 5.

(** The dictionary returned by [_analyze_image_for_goal_and_obstacles]. *)
Record Vision : Type := mkVision {
  v_width : Z;
  left_density : Z;
  center_density : Z;
  right_density : Z;
  goal_centroid : option Q;
  goal_visible : bool;
  near_left : Z;
  near_center : Z;
  near_right : Z
}.

(** A PIL image in mode RGB: its size and the access [pixels[x, y]]. *)
Record RGBImage : Type := mkRGB {
  size_w : nat;
  size_h : nat;
  load : nat -> nat -> Z * Z * Z
}.

Definition target_width : nat := 320.

(** [range(a, b)] and [range(0, w, 2)]. *)
Definition range (a b : nat) : list nat := seq a (b - a).
Definition range2 (w : nat) : list nat := map (fun k => (2 * k)%nat) (seq 0 ((w + 1) / 2)).

(** [hist[x] += 1]. *)
Definition bump (x : nat) (hist : list Z) : list Z := alter (Z.add 1) x hist.

(** [sum(hist[a:b])]. *)
Definition slice_sum (hist : list Z) (a b : nat) : Z :=
  foldr Z.add 0%Z (take (b - a) (drop a hist)).

(** The three colour tests on a pixel [(r, g, b)]. *)
Definition is_obstacle (p : Z * Z * Z) : bool :=
  let '(r, g, b) := p in (150 <? g)%Z && (r <? 100)%Z && (b <? 100)%Z.
Definition is_goal (p : Z * Z * Z) : bool :=
  let '(r, g, b) := p in (120 <? g)%Z && (180 <? b)%Z && (r <? 100)%Z.
Definition is_near (p : Z * Z * Z) : bool :=
  let '(r, g, b) := p in (140 <? g)%Z && (r <? 110)%Z && (b <? 110)%Z.

(** Body of the inner loop over the mid band. *)
Definition mid_step (img : RGBImage) (y : nat) (acc : list Z * Z * Z) (x : nat)
    : list Z * Z * Z :=
  let '(obstacle_hist, goal_sum_x, goal_count) := acc in
  let p := load img x y in
  let obstacle_hist := if is_obstacle p then bump x obstacle_hist else obstacle_hist in
  if is_goal p
  then (obstacle_hist, (goal_sum_x + Z.of_nat x)%Z, (goal_count + 1)%Z)
  else (obstacle_hist, goal_sum_x, goal_count).

(** Body of the inner loop over the near band. *)
Definition near_step (img : RGBImage) (y : nat) (near_hist : list Z) (x : nat) : list Z :=
  if is_near (load img x y) then bump x near_hist else near_hist.

(** The histogram of the near band over the rows [ys]. *)
Definition near_histogram (img : RGBImage) (ys : list nat) : list Z :=
  foldl (fun hist y => foldl (near_step img y) hist (range2 (size_w img)))
        (replicate (size_w img) 0%Z) ys.

Section analysis.
(** The block [if w > target_width]: PIL's resize to width 320. *)
Variable downscale : RGBImage -> RGBImage.
(** [int_scale h f] stands for [int(h * f)] as double precision
    computes it; it is not always the exact floor
    ([int(90 * 0.70)] is [62]). *)
Variable int_scale : nat -> Q -> nat.

Definition _analyze_image_for_goal_and_obstacles (img : RGBImage) : Vision :=
  let img := if (target_width <? size_w img)%nat then downscale img else img in
  let w := size_w img in
  let h := size_h img in
  let y_start := int_scale h (45 # 100) in
  let y_end := int_scale h (70 # 100) in
  let near_start := int_scale h (70 # 100) in
  let near_end := int_scale h (92 # 100) in
  let '(obstacle_hist, goal_sum_x, goal_count) :=
    foldl (fun acc y => foldl (mid_step img y) acc (range2 w))
          (replicate w 0%Z, 0%Z, 0%Z) (range y_start y_end) in
  let near_hist := near_histogram img (range near_start near_end) in
  let left_density := slice_sum obstacle_hist 0 (w / 3) in
  let center_density := slice_sum obstacle_hist (w / 3) ((2 * w) / 3) in
  let right_density := slice_sum obstacle_hist ((2 * w) / 3) w in
  let near_left := slice_sum near_hist 0 (w / 3) in
  let near_center := slice_sum near_hist (w / 3) ((2 * w) / 3) in
  let near_right := slice_sum near_hist ((2 * w) / 3) w in
  let goal_centroid :=
    if (0 <? goal_count)%Z
    then Some (inject_Z goal_sum_x / inject_Z goal_count) else None in
  mkVision (Z.of_nat w) left_density center_density right_density
           goal_centroid (0 <? goal_count)%Z near_left near_center near_right.
End analysis.

Definition max_turn_deg : Q := 30.
Definition forward_step : Q := 1 # 2.
Definition obstacle_threshold : Z := 150.
Definition near_blocked_threshold : Z := 1.

(** [max(-max_turn_deg, min(max_turn_deg, t))]. *)
Definition clamp_turn (t : Q) : Q := Qmax (- max_turn_deg) (Qmin max_turn_deg t).

(** [x % 360.0] on floats: the result lies in [0, 360). *)
Definition fmod360 (x : Q) : Q := x - 360 * inject_Z (Qfloor (x / 360)).

Section plan.
(** [atan2_deg dx dz] stands for [math.degrees(math.atan2(dx, dz))]. *)
Variable atan2_deg : Q -> Q -> Q.

(** [None] is the [ZeroDivisionError] of the goal branch when the
    width is zero. *)
Definition _plan_move_from_vision (vision : Vision)
    (robot_heading_deg : option Q) (robot_pos goal_pos : option (gmap string Q))
    : option Command :=
  let w := v_width vision in
  let left_d := left_density vision in
  let center_d := center_density vision in
  let right_d := right_density vision in
  let goal_cx := goal_centroid vision in
  (* Hard safety: near centre blocked, turn in place *)
  if (near_blocked_threshold <=? near_center vision)%Z then
    if (near_left vision <? near_right vision)%Z
    then Some (mkCommand (- max_turn_deg) 0)
    else Some (mkCommand max_turn_deg 0)
  else
  match goal_visible vision, goal_cx with
  | true, Some cx =>
      if (w =? 0)%Z then None else
      let offset := (cx - inject_Z w / 2) / (inject_Z w / 2) in
      let turn := clamp_turn (offset * max_turn_deg) in
      let turn :=
        if (obstacle_threshold <? center_d)%Z
        then clamp_turn (if (left_d <? right_d)%Z then turn - 10 else turn + 10)
        else turn in
      Some (mkCommand turn forward_step)
  | _, _ =>
      if (obstacle_threshold <? center_d)%Z then
        if (left_d <? right_d)%Z
        then Some (mkCommand (- max_turn_deg) 0)
        else Some (mkCommand max_turn_deg 0)
      else
      match robot_heading_deg, robot_pos, goal_pos with
      | Some heading, Some rpos, Some gpos =>
          let dx := default 0 (gpos !! "x"%string) - default 0 (rpos !! "x"%string) in
          let dz := default 0 (gpos !! "z"%string) - default 0 (rpos !! "z"%string) in
          let desired_yaw := atan2_deg dx dz in
          let yaw_err := fmod360 (desired_yaw - heading + 540) - 180 in
          let yaw_correction := clamp_turn yaw_err in
          if Qltb 5 (Qabs yaw_correction)
          then Some (mkCommand yaw_correction 0)
          else Some (mkCommand 0 forward_step)
      | _, _, _ => Some (mkCommand 0 forward_step)
      end
  end.
End plan.

(** The string that [_decode_datauri_png_to_image] hands to
    [base64.b64decode]: what follows the first comma of the payload, or
    all of it when it has no comma. *)
Definition datauri_payload (data_uri : string) : string :=
  match split_comma data_uri with
  | Some (_, b64) => b64
  | None => data_uri
  end.

(** A message of the simulator after [json.loads], as far as the
    server reads it: [data.get("type")] when it is a string, the truth
    value of [data.get("collision")], and the fields that the
    controller takes from a capture response. *)
Record SimMessage : Type := mkSimMessage {
  msg_type : option string;
  msg_collision : bool;
  msg_position : option (gmap string Q);
  msg_image : option string;
  msg_headingDeg : option Q
}.

(** What arrives on the socket: text that [json.loads] rejects or that
    is not an object, or an object. *)
Inductive Received : Type :=
  | Unreadable
  | Object (data : SimMessage).

(** The globals that [ws_handler] and the routes share.  The queue is
    [None] until [main] has created it; [goal_reached_event] mirrors
    the flag and is left out, as is the set of connections. *)
Record Globals : Type := mkGlobals {
  collision_count : Z;
  image_queue : option (list SimMessage);
  goal_reached_flag : bool;
  goal_reached_position : option (gmap string Q)
}.

(** [data.get("type") == name]. *)
Definition type_is (data : SimMessage) (name : string) : bool :=
  match msg_type data with
  | Some t => String.eqb t name
  | None => false
  end.

(** [asyncio.Queue(maxsize=2)]: [put_nowait] raises [QueueFull]
    ([None] here) on a full queue, [get] takes the oldest item. *)
Definition queue_maxsize : nat := 2.

Definition put_nowait (item : SimMessage) (q : list SimMessage) : option (list SimMessage) :=
  if (length q <? queue_maxsize)%nat then Some (q ++ [item]) else None.

Definition queue_get (q : list SimMessage) : option (SimMessage * list SimMessage) :=
  match q with
  | item :: q' => Some (item, q')
  | [] => None
  end.

(** The body of the loop of [ws_handler] on one message. *)
Definition on_message (g : Globals) (message : Received) : Globals :=
  match message with
  | Unreadable => g
  | Object data =>
      if type_is data "collision" && msg_collision data then
        mkGlobals (collision_count g + 1) (image_queue g)
                  (goal_reached_flag g) (goal_reached_position g)
      else
      match type_is data "capture_image_response", image_queue g with
      | true, Some q =>
          let q' := match put_nowait data q with
                    | Some q' => q'
                    | None => q            (* [except Exception: pass] *)
                    end in
          mkGlobals (collision_count g) (Some q')
                    (goal_reached_flag g) (goal_reached_position g)
      | _, _ =>
          if type_is data "goal_reached" then
            mkGlobals (collision_count g) (image_queue g) true (msg_position data)
          else g
      end
  end.

(** [ws_handler] over the messages of a connection. *)
Definition ws_handler (messages : list Received) (g : Globals) : Globals :=
  foldl on_message g messages.

(** The routes [/reset], [/collisions] and [/status] on the globals. *)
Definition reset (g : Globals) : Globals :=
  mkGlobals 0 (image_queue g) false None.

Definition get_collisions (g : Globals) : Z := collision_count g.

Definition status (g : Globals) : Z * bool * option (gmap string Q) :=
  (collision_count g, goal_reached_flag g, goal_reached_position g).

(** An answer of a route: status 200 with its JSON body, or status 400. *)
Inductive response (A : Type) : Type :=
  | Ok200 (body : A)
  | Err400.
Arguments Ok200 {A} body.
Arguments Err400 {A}.

(** The JSON body of a request to [/goal]: the corner when it is a
    string, the coordinates when they are numbers. *)
Record GoalRequest : Type := mkGoalRequest {
  req_corner : option string;
  req_x : option Q;
  req_y : option Q;
  req_z : option Q
}.

(** The route [/goal].  [connected] tells whether a simulator is
    connected, which is what [broadcast] returns.  Of the body of the
    answer the entry ["goal"] is kept; the other entry is a string. *)
Definition set_goal (connected : bool) (data : GoalRequest)
    : response (gmap string (gmap string Q)) :=
  let pos : option (gmap string Q) :=
    match req_corner data with
    | Some corner => Some (inject_Z <$> corner_to_coords corner default_margin)
    | None =>
        match req_x data, req_z data with
        | Some x, Some z =>
            Some {[ "x"%string := x; "y"%string := default 0 (req_y data);
                    "z"%string := z ]}
        | _, _ => None
        end
    end in
  match pos with
  | Some pos => if connected then Ok200 {[ "goal"%string := pos ]} else Err400
  | None => Err400
  end.

(** The routes that the module registers with [@app.route], each with
    its method.  Flask answers a request for any other path or method
    with an error status. *)
Definition routes : list (string * string) :=
  [("POST", "/move"); ("POST", "/move_rel"); ("POST", "/stop"); ("POST", "/capture");
   ("POST", "/goal"); ("POST", "/obstacles/positions"); ("POST", "/obstacles/motion");
   ("GET", "/collisions"); ("POST", "/reset"); ("GET", "/status")]%string.

Definition routed (method path : string) : bool :=
  existsb (fun r => String.eqb (fst r) method && String.eqb (snd r) path) routes.

End server.

(** ** agent/agent.py *)
Module agent.

(** The class attributes of [NavigatorConfig]. *)
Record NavigatorConfig : Type := mkConfig {
  STEP_DIST : Q;
  SAFE_THR : Q;
  OBS_W : Q;
  GOAL_W : Q;
  FOV_DEG : Q;
  NUM_HEADINGS : nat;
  MAX_STEPS : nat;
  GOAL_RADIUS : Q;
  SAVE_DEBUG : bool
}.

Definition default_config : NavigatorConfig :=
  {| STEP_DIST := 4; SAFE_THR := 35 # 100; OBS_W := 12 # 10; GOAL_W := 6 # 10;
     FOV_DEG := 120; NUM_HEADINGS := 31; MAX_STEPS := 1200; GOAL_RADIUS := 3;
     SAVE_DEBUG := true |}.

(** The two literal tables of [Navigator.set_goal]. *)
Definition mapping : gmap string string :=
  {[ "NE" := "TR"; "NW" := "TL"; "SE" := "BR"; "SW" := "BL";
     "TR" := "TR"; "TL" := "TL"; "BR" := "BR"; "BL" := "BL" ]}.

Definition corners : gmap string (gmap string Z) :=
  {[ "TL" := {[ "x" := -45; "y" := 0; "z" := 45 ]};
     "TR" := {[ "x" := 45; "y" := 0; "z" := 45 ]};
     "BL" := {[ "x" := -45; "y" := 0; "z" := -45 ]};
     "BR" := {[ "x" := 45; "y" := 0; "z" := -45 ]};
     "NE" := {[ "x" := 45; "y" := 0; "z" := 45 ]};
     "NW" := {[ "x" := -45; "y" := 0; "z" := 45 ]};
     "SE" := {[ "x" := 45; "y" := 0; "z" := -45 ]};
     "SW" := {[ "x" := -45; "y" := 0; "z" := -45 ]} ]}%Z.

(** The branch [if g is None] of [set_goal]: [corners[alias]]. *)
Definition fallback_goal (corner : string) : option (gmap string Z) :=
  let alias := default "NE"%string (mapping !! corner) in
  corners !! alias.

(** [a or b] on two optional dictionaries: an absent or empty [a] is falsy. *)
Definition or_dict {V : Type} (a b : option (gmap string V)) : option (gmap string V) :=
  match a with
  | Some d => if Nat.eqb (size d) 0 then b else a
  | None => b
  end.

(** [Navigator.set_goal]: [resp] is the answer of [api.set_goal_corner];
    the result is the new [self.goal], [None] for a [KeyError]. *)
Definition set_goal (corner : string) (resp : gmap string (gmap string Q))
    : option (gmap string Q) :=
  let g : option (gmap string Q) :=
    match or_dict (resp !! "goal"%string) (resp !! "position"%string) with
    | Some g => Some g
    | None =>
        match fallback_goal corner with
        | Some d => Some (inject_Z <$> d)
        | None => None
        end
    end in
  match g with
  | Some g =>
      match g !! "x"%string, g !! "z"%string with
      | Some gx, Some gz =>
          Some {[ "x"%string := gx;
                  "y"%string := default 0 (g !! "y"%string);
                  "z"%string := gz ]}
      | _, _ => None
      end
  | None => None
  end.

Section navigator.
(** A decoded camera frame and OpenCV's [obstacle_mask] on it. *)
Variable Image : Type.
Variable obstacle_mask : Image -> vision.Mask.
Variable tan_deg : Q -> Q.
Variable atan2_deg : Q -> Q -> Q.
Variable cfg : NavigatorConfig.

(** What the simulator answers in one iteration of the loop:
    [api.capture()] (the timestamp is not used) and, when the frame
    is processed, [api.collisions()]. *)
Record Obs : Type := mkObs {
  img : option Image;
  pos : option (gmap string Q);
  collisions : Z
}.

(** The local variables of [run] that the loop carries. *)
Record State : Type := mkState {
  steps : nat;
  coll_prev : Z;
  total_collisions : Z
}.

(** The calls of [api.move_rel] of one frame-processing tick, in the
    order they are made, with the counter reading of that tick. *)
Record TickLog : Type := mkTickLog {
  reading : Z;
  planned : Command;
  backoff : option Command;
  stop : option Command
}.

Definition commands (t : TickLog) : list Command :=
  planned t :: option_list (backoff t) ++ option_list (stop t).

Inductive tick_result : Type :=
  | Retry                                (* [continue]: no frame *)
  | Raise                                (* an exception leaves [run] *)
  | Next (st : State) (t : TickLog)      (* end of the loop body *)
  | Break (st : State) (t : TickLog).    (* [break]: goal reached *)

(** One iteration of the body of [while steps < MAX_STEPS]. *)
Definition tick (goal : gmap string Q) (o : Obs) (st : State) : tick_result :=
  match img o, pos o with
  | Some im, Some p =>
      let mask := obstacle_mask im in
      match vision.sample_headings tan_deg mask (NUM_HEADINGS cfg) (FOV_DEG cfg),
            planner.goal_bearing_from_position Qminus 0 atan2_deg p goal with
      | Some headings, Some goal_bearing =>
          let '(ang, _score) :=
            planner.pick_heading headings goal_bearing
                                 (OBS_W cfg) (GOAL_W cfg) (SAFE_THR cfg) in
          let step := planner.step_from_heading ang (STEP_DIST cfg) in
          let c := collisions o in
          let '(total, prev, back) :=
            if (coll_prev st <? c)%Z
            then (total_collisions st + (c - coll_prev st), c,
                  Some (mkCommand 0 (- STEP_DIST cfg * (6 # 10))))%Z
            else (total_collisions st, coll_prev st, None) in
          match planner.close_to_goal p goal (GOAL_RADIUS cfg) with
          | Some true =>
              Break (mkState (steps st) prev total)
                    (mkTickLog c step back (Some (mkCommand 0 0)))
          | Some false =>
              Next (mkState (S (steps st)) prev total)
                   (mkTickLog c step back None)
          | None => Raise
          end
      | _, _ => Raise
      end
  | _, _ => Retry
  end.

Inductive exit : Type := GOAL_REACHED | STEP_LIMIT_EXCEEDED.

(** [Returned e total steps]: [run] returned [(total, steps)], leaving
    the loop by [break] ([GOAL_REACHED]) or by its condition. *)
Inductive outcome : Type :=
  | Returned (e : exit) (total : Z) (steps : nat)
  | Raised
  | OutOfFuel.

(** The [while] loop from iteration [i] on, with the log of the
    frame-processing ticks it went through. *)
Fixpoint loop (goal : gmap string Q) (env : nat -> Obs)
    (fuel i : nat) (st : State) : outcome * list TickLog :=
  match fuel with
  | O => (OutOfFuel, [])
  | S fuel' =>
      if (steps st <? MAX_STEPS cfg)%nat then
        match tick goal (env i) st with
        | Retry => loop goal env fuel' (S i) st
        | Raise => (Raised, [])
        | Next st' t =>
            let '(o, l) := loop goal env fuel' (S i) st' in (o, t :: l)
        | Break st' t =>
            (Returned GOAL_REACHED (total_collisions st') (steps st'), [t])
        end
      else (Returned STEP_LIMIT_EXCEEDED (total_collisions st) (steps st), [])
  end.

(** [Navigator.run]: [resp] answers [api.set_goal_corner], [c0] is the
    first [api.collisions()], [env] the simulator during the loop.
    [api.reset()], the obstacle-motion request and the video writer do
    not touch the result and are left out. *)
Definition run (corner : string) (resp : gmap string (gmap string Q))
    (c0 : Z) (env : nat -> Obs) (fuel : nat) : outcome * list TickLog :=
  match set_goal corner resp with
  | Some goal => loop goal env fuel 0 (mkState 0 c0 0)
  | None => (Raised, [])
  end.
End navigator.

End agent.

(** ** agent/sim_api.py *)
Module sim_api.

(** [SimAPI.set_goal_corner] against a server whose route [/goal] is
    [post_goal]; [None] is the exception of [raise_for_status]. *)
Definition set_goal_corner
    (post_goal : server.GoalRequest -> server.response (gmap string (gmap string Q)))
    (corner : string) : option (gmap string (gmap string Q)) :=
  match post_goal (server.mkGoalRequest (Some corner) None None None) with
  | server.Ok200 body => Some body
  | server.Err400 => None
  end.

(** The value of ["timestamp"] in an answer of [/last_capture]: a
    number, or some other JSON value. *)
Inductive Timestamp : Type :=
  | TsNumber (q : Q)
  | TsOther.

(** A non-empty answer of [/last_capture]: [data.get("timestamp")],
    [data.get("image", "") or ""] and [data.get("position")]. *)
Record LastCapture : Type := mkLastCapture {
  timestamp : option Timestamp;
  image : string;
  position : option (gmap string Q)
}.

(** [ts == self._last_capture_ts] with [self._last_capture_ts] not [None]. *)
Definition same_timestamp (last : option Z) (ts : Timestamp) : bool :=
  match last, ts with
  | Some l, TsNumber q => Qeq_bool q (inject_Z l)
  | _, _ => false
  end.

(** The polling loop of [capture] over the answers that
    [_get_last_capture] gives before the timeout; an answer [None] is a
    failed request or an empty object. *)
Fixpoint poll (last : option Z) (answers : list (option LastCapture)) : option LastCapture :=
  match answers with
  | [] => None
  | None :: rest => poll last rest
  | Some data :: rest =>
      match timestamp data with
      | None => poll last rest
      | Some ts => if same_timestamp last ts then poll last rest else Some data
      end
  end.

(** The base64 text of an image field that is a data URL or raw base64. *)
Definition image_base64 (img_b64_or_url : string) : string :=
  if String.prefix "data:image" img_b64_or_url then
    match split_comma img_b64_or_url with
    | Some (_, b64) => b64
    | None => EmptyString               (* [except ValueError] *)
    end
  else img_b64_or_url.

Section capture.
Variable Image : Type.
(** [cv2.imdecode] on the bytes of [base64.b64decode]; text that
    [b64decode] rejects is outside the model. *)
Variable imdecode : string -> option Image.

(** [SimAPI.capture]: the triple returned and the new
    [self._last_capture_ts]. *)
Definition capture (last : option Z) (answers : list (option LastCapture))
    : (option Image * option (gmap string Q) * option Z) * option Z :=
  match poll last answers with
  | None => ((None, None, None), last)
  | Some latest =>
      let last' :=
        match timestamp latest with
        | Some (TsNumber ts_val) => Some (vision.Qtrunc ts_val)
        | _ => last
        end in
      let b64 := image_base64 (image latest) in
      let img := match b64 with
                 | EmptyString => None
                 | _ => imdecode b64
                 end in
      ((img, position latest, last'), last')
  end.
End capture.

(** [SimAPI._get_last_capture] against a server: [routed] tells whether
    the server answers the request with status 200 and [body] is the
    JSON it then sends; another status gives [None]. *)
Definition _get_last_capture (routed : string -> string -> bool)
    (body : option LastCapture) : option LastCapture :=
  if routed "GET"%string "/last_capture"%string then body else None.

End sim_api.

(** ** agent/planner.py on binary64 *)

(** The functions of the planner on the doubles that Python computes
    with: every operation below is the IEEE 754 operation of the
    source, rounding, overflow to [inf] and [nan] included. *)
Module planner64.

(** An entry [(angle_deg, obstacle_cost)] of a cost field. *)
Definition heading : Type := (PrimFloat.float * PrimFloat.float)%type.

(** [obs_w * oc + goal_w * (abs(ang - goal_angle_deg) / 60.0)]. *)
Definition heading_score (goal_angle_deg obs_w goal_w : PrimFloat.float) (e : heading)
    : PrimFloat.float :=
  let '(ang, oc) := e in
  let ang_err := (PrimFloat.abs (ang - goal_angle_deg) / 60)%float in
  (obs_w * oc + goal_w * ang_err)%float.

(** Body of the first loop: only entries below the threshold compete. *)
Definition safe_step (goal_angle_deg obs_w goal_w safe_thr : PrimFloat.float)
    (st : PrimFloat.float * PrimFloat.float) (e : heading)
    : PrimFloat.float * PrimFloat.float :=
  let '(best_angle, best_cost) := st in
  let '(ang, oc) := e in
  let score := heading_score goal_angle_deg obs_w goal_w e in
  if (oc <? safe_thr)%float && (score <? best_cost)%float then (ang, score) else st.

(** Body of the second loop: every entry competes. *)
Definition any_step (goal_angle_deg obs_w goal_w : PrimFloat.float)
    (st : PrimFloat.float * PrimFloat.float) (e : heading)
    : PrimFloat.float * PrimFloat.float :=
  let '(best_angle, best_cost) := st in
  let '(ang, oc) := e in
  let score := heading_score goal_angle_deg obs_w goal_w e in
  if (score <? best_cost)%float then (ang, score) else st.

Definition pick_heading (heading_costs : list heading)
    (goal_angle_deg obs_w goal_w safe_thr : PrimFloat.float)
    : PrimFloat.float * PrimFloat.float :=
  let st := fold_left (safe_step goal_angle_deg obs_w goal_w safe_thr)
                      heading_costs (0%float, PrimFloat.infinity) in
  if (snd st =? PrimFloat.infinity)%float
  then fold_left (any_step goal_angle_deg obs_w goal_w) heading_costs st
  else st.

Section bearing.
(** [atan2_deg dx dz] stands for [math.degrees(math.atan2(dx, dz))]. *)
Variable atan2_deg : PrimFloat.float -> PrimFloat.float -> PrimFloat.float.

(** [goal["x"]] raises [KeyError] on a missing key ([None] here);
    [pos.get("x", 0.0)] falls back to zero. *)
Definition goal_bearing_from_position (pos goal : gmap string PrimFloat.float)
    : option PrimFloat.float :=
  match goal !! "x"%string, goal !! "z"%string with
  | Some gx, Some gz =>
      let dx := (gx - default 0%float (pos !! "x"%string))%float in
      let dz := (gz - default 0%float (pos !! "z"%string))%float in
      Some (atan2_deg dx dz)
  | _, _ => None
  end.
End bearing.

End planner64.

(* ================================================================== *)
(** * Vocabulary of the properties *)

(** One step of a loop that keeps the first entry of least score:
    [key e] is the score of an entry that competes in the loop. *)
Definition min_step (key : planner.heading -> option Q)
    (st : planner.best) (e : planner.heading) : planner.best :=
  match key e with
  | Some s => if lt_score s (snd st) then (fst e, Finite s) else st
  | None => st
  end.

(** [l] splits at its first entry of minimal key, whose key is [s]. *)
Definition first_min (key : planner.heading -> option Q)
    (l : list planner.heading) (e : planner.heading) (s : Q) : Prop :=
  exists pre post,
    l = pre ++ e :: post /\ key e = Some s /\
    (forall e' s', In e' pre -> key e' = Some s' -> s < s') /\
    (forall e' s', In e' post -> key e' = Some s' -> s <= s').

(** The entries that compete in the first loop, with their score. *)
Definition key_safe (goal_angle_deg obs_w goal_w safe_thr : Q) (e : planner.heading)
    : option Q :=
  match planner.heading_score goal_angle_deg obs_w goal_w e with
  | Num s => if flt (snd e) safe_thr then Some s else None
  | NaN => None
  end.

(** The entries that compete in the second loop, with their score. *)
Definition key_any (goal_angle_deg obs_w goal_w : Q) (e : planner.heading) : option Q :=
  match planner.heading_score goal_angle_deg obs_w goal_w e with
  | Num s => Some s
  | NaN => None
  end.

(** The invariant of a cost field of [num] headings over [fov] degrees. *)
Definition cost_field_ok (fov : Q) (num : nat) (l : list planner.heading) : Prop :=
  length l = num /\
  StronglySorted Qlt (map fst l) /\
  forall a x, In (a, x) l ->
    (- fov / 2 <= a /\ a <= fov / 2) /\ exists c, x = Num c /\ 0 <= c /\ c <= 1.

(** The values of the column [col] of a mask inside the middle band. *)
Definition band_values (mask : vision.Mask) (col : Z) : list Z :=
  map (fun y => vision.pixel mask y (Z.to_nat col))
      (seq (vision.height mask / 3)
           ((vision.height mask / 3) * 2 - vision.height mask / 3)).

Definition short_mask : vision.Mask := vision.mkMask 1 1 (fun _ _ => 0%Z).

Definition small_mask : vision.Mask :=
  vision.mkMask 3 2 (fun y x => if Nat.eqb x 1 then 255%Z else 0%Z).

Definition corner_names : list string :=
  ["NE"; "NW"; "SE"; "SW"; "TR"; "TL"; "BR"; "BL"]%string.

(** The [{x, z}] part of a corner dictionary. *)
Definition xz (d : gmap string Z) : option (Z * Z) :=
  match d !! "x"%string, d !! "z"%string with
  | Some x, Some z => Some (x, z)
  | _, _ => None
  end.






(** Left free, centre and right of the near field occupied, marker in view. *)
Definition blocked_right : server.Vision :=
  server.mkVision 320 0 0 0 (Some 300) true 0 1 3.

(** The total that the loop adds for the readings [rs], starting from
    the last counted value [prev]: only a reading above it counts. *)
Fixpoint counted (prev : Z) (rs : list Z) : Z :=
  match rs with
  | [] => 0
  | r :: rs' =>
      if (prev <? r)%Z then (r - prev) + counted r rs' else counted prev rs'
  end%Z.

(** The sum of the positive deltas between consecutive readings. *)
Fixpoint sum_pos_deltas (prev : Z) (rs : list Z) : Z :=
  match rs with
  | [] => 0
  | r :: rs' => Z.max 0 (r - prev) + sum_pos_deltas r rs'
  end%Z.

(** The back-off call is made exactly in the ticks whose reading is
    above the last counted value. *)
Fixpoint backoff_above (bk : Command) (prev : Z) (l : list agent.TickLog) : Prop :=
  match l with
  | [] => True
  | t :: l' =>
      agent.backoff t = (if (prev <? agent.reading t)%Z then Some bk else None) /\
      backoff_above bk (Z.max prev (agent.reading t)) l'
  end.

(** The back-off call is made exactly in the ticks whose reading is
    above the reading of the tick before. *)
Fixpoint backoff_at_increase (bk : Command) (prev : Z) (l : list agent.TickLog) : Prop :=
  match l with
  | [] => True
  | t :: l' =>
      agent.backoff t = (if (prev <? agent.reading t)%Z then Some bk else None) /\
      backoff_at_increase bk (agent.reading t) l'
  end.

(** The back-off command of the loop, [move_rel(0, -STEP_DIST * 0.6)]. *)
Definition back_off (cfg : agent.NavigatorConfig) : Command :=
  mkCommand 0 (- agent.STEP_DIST cfg * (6 # 10)).

(** The final stop command, [move_rel(0, 0)]. *)
Definition stop_cmd : Command := mkCommand 0 0.

(** The frame of an observation, when [capture] delivered one. *)
Definition frame (Image : Type) (o : agent.Obs Image) : option (Image * gmap string Q) :=
  match agent.img Image o, agent.pos Image o with
  | Some im, Some p => Some (im, p)
  | _, _ => None
  end.

(** The collision bookkeeping of one tick: the new total and the new
    last counted value. *)
Definition after_reading (st : agent.State) (c : Z) : Z * Z :=
  if (agent.coll_prev st <? c)%Z
  then (agent.total_collisions st + (c - agent.coll_prev st), c)%Z
  else (agent.total_collisions st, agent.coll_prev st).

(** A frame one pixel wide with a free band, two poses, and the
    simulator that shows this frame at a fixed pose with given readings. *)
Definition demo_mask : vision.Mask := vision.mkMask 3 1 (fun _ _ => 0%Z).

Definition origin : gmap string Q :=
  {[ "x"%string := 0; "y"%string := 0; "z"%string := 0 ]}.

Definition at_NE : gmap string Q :=
  {[ "x"%string := 45; "y"%string := 0; "z"%string := 45 ]}.

Definition env_at (p : gmap string Q) (rs : list Z) : nat -> agent.Obs vision.Mask :=
  fun i => agent.mkObs vision.Mask (Some demo_mask) (Some p) (nth i rs 0%Z).


(** [NavigatorConfig] with a budget of [n] steps. *)
Definition config_with_steps (n : nat) : agent.NavigatorConfig :=
  agent.mkConfig 4 (35 # 100) (12 # 10) (6 # 10) 120 31 n 3 true.

(** An episode of six ticks with the readings [0, 0, 1, 1, 3, 3]. *)
Definition six_ticks : agent.outcome * list agent.TickLog :=
  agent.run vision.Mask (fun m => m) (fun _ => 0) (fun _ _ => 0) (config_with_steps 6)
            "NE" ∅ 0 (env_at origin [0; 0; 1; 1; 3; 3]%Z) 10.

(** The tick on which the goal is reached is counted in the steps. *)
Definition exit_tick_counted (r : agent.outcome * list agent.TickLog) : Prop :=
  forall total steps,
    fst r = agent.Returned agent.GOAL_REACHED total steps -> steps = length (snd r).

(** An episode that starts at the goal. *)
Definition starts_at_goal : agent.outcome * list agent.TickLog :=
  agent.run vision.Mask (fun m => m) (fun _ => 0) (fun _ _ => 0) agent.default_config
            "NE" ∅ 0 (env_at at_NE []) 2.

(** How often the loops over [evs], pairs [(y, x)] in loop order, bump
    the entry [i] of the near histogram. *)
Definition near_hits (img : server.RGBImage) (i : nat) (evs : list (nat * nat)) : Z :=
  Z.of_nat (length (List.filter
                      (fun e => Nat.eqb (snd e) i
                                && server.is_near (server.load img (snd e) (fst e)))
                      evs)).

(** A non-decreasing stand-in for the tangent, for the examples. *)
Definition tan_linear (a : Q) : Q := a / 60.

(** How many sampled pixels of the rows [y0] to [y1], bottom excluded,
    and of the even columns pass the colour test [test]. *)
Definition sampled (img : server.RGBImage) (test : Z * Z * Z -> bool) (y0 y1 : nat) : nat :=
  length (List.filter (fun e => test (server.load img (snd e) (fst e)))
                      (list_prod (server.range y0 y1)
                                 (server.range2 (server.size_w img)))).

(** The loop body that bumps the histogram entry of a pixel passing [test]. *)
Definition hist_step (img : server.RGBImage) (test : Z * Z * Z -> bool)
    (hist : list Z) (e : nat * nat) : list Z :=
  if test (server.load img (snd e) (fst e)) then server.bump (snd e) hist else hist.

(** The highest reading so far, starting from the snapshot [c0]. *)
Definition high_water (c0 : Z) (rs : list Z) : Z := fold_left Z.max rs c0.

(** What touches the globals of the server, in the order it is handled:
    a message on the socket, a call of [/reset], and the controller
    taking a frame from the queue. *)
Inductive Event : Type :=
  | Message (m : server.Received)
  | ResetCall
  | ControllerGet.

Definition handle (g : server.Globals) (ev : Event) : server.Globals :=
  match ev with
  | Message m => server.on_message g m
  | ResetCall => server.reset g
  | ControllerGet =>
      match server.image_queue g with
      | Some q =>
          match server.queue_get q with
          | Some (_, q') =>
              server.mkGlobals (server.collision_count g) (Some q')
                               (server.goal_reached_flag g)
                               (server.goal_reached_position g)
          | None => g
          end
      | None => g
      end
  end.

Definition after (events : list Event) (g : server.Globals) : server.Globals :=
  foldl handle g events.

(** The collision messages and the capture responses among the events. *)
Definition is_collision (ev : Event) : bool :=
  match ev with
  | Message (server.Object data) =>
      server.type_is data "collision" && server.msg_collision data
  | _ => false
  end.

Definition collisions_in (events : list Event) : Z :=
  Z.of_nat (length (List.filter is_collision events)).

Fixpoint captures_in (events : list Event) : list server.SimMessage :=
  match events with
  | [] => []
  | Message (server.Object data) :: rest =>
      if server.type_is data "capture_image_response"
      then data :: captures_in rest else captures_in rest
  | _ :: rest => captures_in rest
  end.

(** The goal that [Navigator.set_goal] ends with when its request goes
    to this server. *)
Definition navigator_goal (connected : bool) (corner : string) : option (gmap string Q) :=
  match sim_api.set_goal_corner (server.set_goal connected) corner with
  | Some resp => agent.set_goal corner resp
  | None => None
  end.

(** Every timestamp among the answers is a whole number. *)
Definition integer_stamped (answers : list (option sim_api.LastCapture)) : Prop :=
  forall data ts,
    In (Some data) answers -> sim_api.timestamp data = Some ts ->
    exists (q : Q) (k : Z), ts = sim_api.TsNumber q /\ q == inject_Z k.

(** Some simulator traffic, and a capture of the simulator. *)
Definition collision_msg : Event :=
  Message (server.Object (server.mkSimMessage (Some "collision"%string) true None None None)).

Definition capture_msg (heading : Q) : Event :=
  Message (server.Object
             (server.mkSimMessage (Some "capture_image_response"%string) false None
                                  (Some "data:image/png;base64,AAAA"%string) (Some heading))).

Definition idle_globals : server.Globals := server.mkGlobals 7 (Some []) true None.

Definition capture_at (ts : Q) : sim_api.LastCapture :=
  sim_api.mkLastCapture (Some (sim_api.TsNumber ts)) "data:image/png;base64,AAAA" (Some origin).

(** A frame four pixels wide and twenty high with a cyan marker in
    column 2, and [int(h * f)] computed exactly. *)
Definition marker_image : server.RGBImage :=
  server.mkRGB 4 20 (fun x _ => if Nat.eqb x 2 then (0, 200, 255)%Z else (0, 0, 0)%Z).

Definition int_floor (h : nat) (f : Q) : nat :=
  Z.to_nat (Qfloor (inject_Z (Z.of_nat h) * f)).

(** What the loop of [run] sees of the triple of a capture and of a
    reading of the collision counter. *)
Definition observe (Image : Type)
    (r : option Image * option (gmap string Q) * option Z) (c : Z) : agent.Obs Image :=
  agent.mkObs Image (fst (fst r)) (snd (fst r)) c.

(** The simulator as the navigator sees it through this server: in
    iteration [i] the capture remembers [last i] and polls once for
    each element of [polls i], the bodies a route would send. *)
Definition through_server (Image : Type) (imdecode : string -> option Image)
    (last : nat -> option Z) (polls : nat -> list (option sim_api.LastCapture))
    (readings : nat -> Z) : nat -> agent.Obs Image :=
  fun i =>
    observe Image
      (fst (sim_api.capture Image imdecode (last i)
              (map (sim_api._get_last_capture server.routed) (polls i))))
      (readings i).





(** ** Binary64 *)

(** Python's [float] is the IEEE 754 binary64 format, which is the
    primitive [PrimFloat.float].  The position of a float that is not
    [nan] in the order of the doubles: the class (minus infinity,
    negative, zero, positive, plus infinity), then exponent and
    mantissa. *)
Definition SFkey (x : spec_float) : option (Z * Z * Z) :=
  match x with
  | S754_nan => None
  | S754_infinity true => Some (-2, 0, 0)%Z
  | S754_finite true m e => Some (-1, - e, Z.neg m)%Z
  | S754_zero _ => Some (0, 0, 0)%Z
  | S754_finite false m e => Some (1, e, Z.pos m)%Z
  | S754_infinity false => Some (2, 0, 0)%Z
  end.

Definition key (x : PrimFloat.float) : option (Z * Z * Z) := SFkey (Prim2SF x).

(** The lexicographic order on the positions. *)
Definition key_lt (a b : Z * Z * Z) : Prop :=
  let '(a1, a2, a3) := a in
  let '(b1, b2, b3) := b in
  (a1 < b1 \/ (a1 = b1 /\ (a2 < b2 \/ (a2 = b2 /\ a3 < b3))))%Z.

(** The defaults of [pick_heading], as doubles. *)
Definition obs_w64 : PrimFloat.float := 1.2%float.
Definition goal_w64 : PrimFloat.float := 0.6%float.
Definition safe_thr64 : PrimFloat.float := 0.35%float.

(** An entry competes in the first loop when its cost is below the
    threshold; [score] abbreviates the computed score. *)
Definition safe64 (thr : PrimFloat.float) (e : planner64.heading) : bool :=
  (snd e <? thr)%float.

Definition every64 (e : planner64.heading) : bool := true.

(** One step of a loop that keeps the first entry of least computed
    score among the entries that compete. *)
Definition tier_step (ok : planner64.heading -> bool)
    (sc : planner64.heading -> PrimFloat.float)
    (st : PrimFloat.float * PrimFloat.float) (e : planner64.heading)
    : PrimFloat.float * PrimFloat.float :=
  if ok e && (sc e <? snd st)%float then (fst e, sc e) else st.

(** [r] is the first entry of [field], in input order, of least
    computed score among the entries that compete: no competitor
    before it has a score at most its own, no competitor after it a
    smaller one, and its score is below [inf]. *)
Definition first_least (ok : planner64.heading -> bool)
    (sc : planner64.heading -> PrimFloat.float)
    (field : list planner64.heading) (r : PrimFloat.float * PrimFloat.float) : Prop :=
  exists pre e post,
    field = pre ++ e :: post /\ ok e = true /\ r = (fst e, sc e) /\
    (sc e <? PrimFloat.infinity)%float = true /\
    (forall e', In e' pre -> ok e' = true -> (sc e' <=? sc e)%float = false) /\
    (forall e', In e' post -> ok e' = true -> (sc e' <? sc e)%float = false).

(** The number a double stands for, when it is finite. *)
Definition SF2Q (x : spec_float) : option Q :=
  match x with
  | S754_zero _ => Some 0
  | S754_finite s m e =>
      Some ((if s then - (1) else 1) * inject_Z (Z.pos m) * Qpower 2 e)
  | _ => None
  end.

Definition exact (x : PrimFloat.float) : option Q := SF2Q (Prim2SF x).

(** The score [obs_w * cost + goal_w * |angle - goal| / 60] of an entry
    of doubles, without rounding. *)
Definition exact_score (g ow gw : PrimFloat.float) (e : planner64.heading) : option Q :=
  match exact g, exact ow, exact gw, exact (fst e), exact (snd e) with
  | Some g, Some ow, Some gw, Some ang, Some oc =>
      Some (ow * oc + gw * (Qabs (ang - g) / 60))
  | _, _, _, _, _ => None
  end.

(** Fields of doubles: a safe entry whose score overflows; two safe
    entries whose computed scores are equal; a mixed field; a blocked
    field whose only score overflows; a blocked field of two entries
    that tie without rounding; a blocked field. *)
Definition field_far : list planner64.heading := [(1e308, 0)]%float.

Definition field_close : list planner64.heading :=
  [(-56, 0.16875); (44, 0.06875)]%float.

Definition field_mixed64 : list planner64.heading :=
  [(-60, 0.5); (0, 0.2); (60, 0)]%float.

Definition field_far_blocked : list planner64.heading := [(1e308, 1)]%float.

Definition field_tie : list planner64.heading := [(-56, 1); (4, 0.5)]%float.

Definition field_blocked64 : list planner64.heading :=
  [(-60, 0.9); (-30, 0.5); (30, 0.5)]%float.

(** A position of doubles, its translation by [t], computed in
    doubles as the caller computes it, and its dictionary. *)
Record Vec3f : Type := mkVec3f {
  fx : PrimFloat.float;
  fy : PrimFloat.float;
  fz : PrimFloat.float
}.

Definition vadd64 (p t : Vec3f) : Vec3f :=
  mkVec3f (fx p + fx t)%float (fy p + fy t)%float (fz p + fz t)%float.

Definition to_dict64 (p : Vec3f) : gmap string PrimFloat.float :=
  {[ "x"%string := fx p; "y"%string := fy p; "z"%string := fz p ]}.

(** A double that is neither [nan] nor infinite. *)
Definition finite64 (x : PrimFloat.float) : Prop :=
  (PrimFloat.abs x <? PrimFloat.infinity)%float = true.

(** What the C standard asks of [atan2] at a first argument that is
    a zero and a positive second one: a zero, which [math.degrees]
    keeps. *)
Definition atan2_ahead (atan2_deg : PrimFloat.float -> PrimFloat.float -> PrimFloat.float)
    : Prop :=
  forall dx dz, (dx =? 0)%float = true -> (0 <? dz)%float = true ->
                (atan2_deg dx dz =? 0)%float = true.

(** A pose at the origin, a goal to the right of straight ahead, and a
    translation that absorbs both. *)
Definition pose0 : Vec3f := mkVec3f 0 0 0.
Definition goal35 : Vec3f := mkVec3f 3 0 5.
Definition far_away : Vec3f := mkVec3f 1e17 0 1e17.
Definition nearby : Vec3f := mkVec3f 16 1 (-4).

(** A pose and a goal directly ahead of it whose [x] is infinite. *)
Definition pose_inf : Vec3f := mkVec3f PrimFloat.infinity 0 0.
Definition goal_inf : Vec3f := mkVec3f PrimFloat.infinity 0 1.

(* ================================================================== *)
(** * Properties *)

(** ** Booleans of the number model *)

Lemma Qltb_lt (a b : Q) : Qltb a b = true <-> a < b.
Proof.
  unfold Qltb. rewrite negb_true_iff.
  destruct (Qle_bool b a) eqn:E.
  - apply Qle_bool_iff in E. split; [discriminate | intros H; exfalso; lra].
  - split; [intros _ | reflexivity].
    destruct (Qlt_le_dec a b) as [H | H]; [exact H |].
    apply Qle_bool_iff in H. congruence.
Qed.

Lemma Qltb_ge (a b : Q) : Qltb a b = false <-> b <= a.
Proof.
  destruct (Qltb a b) eqn:E.
  - apply Qltb_lt in E. split; [discriminate | intros H; exfalso; lra].
  - split; [intros _ | reflexivity].
    destruct (Qlt_le_dec a b) as [H | H]; [| exact H].
    apply Qltb_lt in H. congruence.
Qed.

(** ** The first minimum of a loop of [pick_heading] *)

Lemma fold_min_step (key : planner.heading -> option Q)
    (l : list planner.heading) (a0 : Q) :
  ((forall e, In e l -> key e = None) /\ fold_left (min_step key) l (a0, Inf) = (a0, Inf))
  \/ (exists e s, first_min key l e s /\
                  fold_left (min_step key) l (a0, Inf) = (fst e, Finite s)).
Proof.
  induction l as [| x l IH] using rev_ind.
  - left. split; [intros e [] | reflexivity].
  - rewrite fold_left_app. cbn [fold_left].
    destruct IH as [[Hnone Hst] | (e & s & (pre & post & Hl & Hk & Hpre & Hpost) & Hst)];
      rewrite Hst; unfold min_step; destruct (key x) as [sx |] eqn:Kx; cbn [snd lt_score].
    + right. exists x, sx. split; [| reflexivity].
      exists l, []. repeat split; auto.
      * intros e' s' Hin Hk'. rewrite (Hnone e' Hin) in Hk'. discriminate.
      * intros e' s' [].
    + left. split; [| reflexivity].
      intros e Hin. apply in_app_or in Hin as [Hin | [<- | []]]; auto.
    + destruct (Qltb sx s) eqn:Hlt.
      * apply Qltb_lt in Hlt. right. exists x, sx. split; [| reflexivity].
        exists l, []. repeat split; auto.
        -- intros e' s' Hin Hk'. subst l.
           apply in_app_or in Hin as [Hin | [<- | Hin]].
           ++ specialize (Hpre _ _ Hin Hk'). lra.
           ++ rewrite Hk in Hk'. injection Hk' as <-. exact Hlt.
           ++ specialize (Hpost _ _ Hin Hk'). lra.
        -- intros e' s' [].
      * apply Qltb_ge in Hlt. right. exists e, s. split; [| reflexivity].
        exists pre, (post ++ [x]). repeat split; auto.
        -- rewrite Hl, <- app_assoc. reflexivity.
        -- intros e' s' Hin Hk'.
           apply in_app_or in Hin as [Hin | [<- | []]]; eauto.
           rewrite Kx in Hk'. injection Hk' as <-. exact Hlt.
    + right. exists e, s. split; [| reflexivity].
      exists pre, (post ++ [x]). repeat split; auto.
      * rewrite Hl, <- app_assoc. reflexivity.
      * intros e' s' Hin Hk'.
        apply in_app_or in Hin as [Hin | [<- | []]]; eauto. congruence.
Qed.

(** ** [pick_heading]: the two tiers *)

Lemma fold_left_pointwise {A B : Type} (f g : A -> B -> A) (l : list B) (a : A) :
  (forall a b, f a b = g a b) -> fold_left f l a = fold_left g l a.
Proof.
  intros Hfg. revert a. induction l as [| b l IH]; intros a; cbn; [reflexivity |].
  rewrite Hfg. apply IH.
Qed.

Lemma safe_step_min_step (g ow gw thr : Q) (st : planner.best) (e : planner.heading) :
  planner.safe_step g ow gw thr st e = min_step (key_safe g ow gw thr) st e.
Proof.
  unfold planner.safe_step, min_step, key_safe.
  destruct (planner.heading_score g ow gw e); [| reflexivity].
  destruct (flt (snd e) thr); reflexivity.
Qed.

Lemma any_step_min_step (g ow gw : Q) (st : planner.best) (e : planner.heading) :
  planner.any_step g ow gw st e = min_step (key_any g ow gw) st e.
Proof.
  unfold planner.any_step, min_step, key_any.
  destruct (planner.heading_score g ow gw e); reflexivity.
Qed.

(** ** Claims on [pick_heading] *)

(** C10.  The empty cost field: [pick_heading] returns angle [0.0] with
    score [float("inf")], whatever the goal bearing, the weights and the
    safety threshold; no step of it can raise. *)
Theorem pick_heading_empty (g ow gw thr : Q) :
  planner.pick_heading [] g ow gw thr = (0, Inf).
Proof. reflexivity. Qed.

(** ** The order of the doubles *)

Lemma SFcompare_key (x y : spec_float) (kx ky : Z * Z * Z) :
  SFkey x = Some kx -> SFkey y = Some ky ->
  exists c, SFcompare x y = Some c /\
            (c = Lt <-> key_lt kx ky) /\ (c = Eq <-> kx = ky) /\ (c = Gt <-> key_lt ky kx).
Proof.
  destruct x as [sx | [|] | | [|] mx ex], y as [sy | [|] | | [|] my ey];
    cbn [SFkey]; intros [= <-] [= <-]; cbn [SFcompare key_lt];
    try (eexists; split; [reflexivity |];
         repeat split; intros H; try discriminate H; try lia;
         try (injection H; intros; lia); fail).
  - (* both negative *)
    destruct (Z.compare_spec ex ey) as [-> | Hlt | Hgt].
    + change (Pos.compare_cont Eq mx my) with (Pos.compare mx my).
      destruct (Pos.compare_spec mx my) as [-> | Hm | Hm]; cbn [CompOpp];
        eexists; (split; [reflexivity |]);
        repeat split; intros H; try discriminate H; try lia;
        try (injection H; intros; lia).
    + eexists; split; [reflexivity |].
      repeat split; intros H; try discriminate H; try lia; try (injection H; intros; lia).
    + eexists; split; [reflexivity |].
      repeat split; intros H; try discriminate H; try lia; try (injection H; intros; lia).
  - (* both positive *)
    destruct (Z.compare_spec ex ey) as [-> | Hlt | Hgt].
    + change (Pos.compare_cont Eq mx my) with (Pos.compare mx my).
      destruct (Pos.compare_spec mx my) as [-> | Hm | Hm];
        eexists; (split; [reflexivity |]);
        repeat split; intros H; try discriminate H; try lia;
        try (injection H; intros; lia).
    + eexists; split; [reflexivity |].
      repeat split; intros H; try discriminate H; try lia; try (injection H; intros; lia).
    + eexists; split; [reflexivity |].
      repeat split; intros H; try discriminate H; try lia; try (injection H; intros; lia).
Qed.

Lemma SFcompare_nan (x y : spec_float) :
  SFkey x = None \/ SFkey y = None -> SFcompare x y = None.
Proof.
  destruct x as [sx | [|] | | [|] mx ex], y as [sy | [|] | | [|] my ey];
    cbn [SFkey]; intros [H | H]; try discriminate H; reflexivity.
Qed.

Lemma ltb_key (x y : PrimFloat.float) :
  PrimFloat.ltb x y = true <->
  exists kx ky, key x = Some kx /\ key y = Some ky /\ key_lt kx ky.
Proof.
  rewrite FloatAxioms.ltb_spec. unfold SFltb, key.
  destruct (SFkey (Prim2SF x)) as [kx |] eqn:Hx.
  - destruct (SFkey (Prim2SF y)) as [ky |] eqn:Hy.
    + destruct (SFcompare_key _ _ kx ky Hx Hy) as (c & -> & Hlt & _).
      split.
      * intros H. exists kx, ky. split; [reflexivity |]. split; [reflexivity |].
        apply Hlt. destruct c; (reflexivity || discriminate).
      * intros (kx' & ky' & [= <-] & [= <-] & Hk). apply Hlt in Hk. rewrite Hk. reflexivity.
    + rewrite SFcompare_nan by (right; exact Hy).
      split; [discriminate | intros (? & ? & _ & [=] & _)].
  - rewrite SFcompare_nan by (left; exact Hx).
    split; [discriminate | intros (? & ? & [=] & _)].
Qed.

Lemma leb_key (x y : PrimFloat.float) :
  PrimFloat.leb x y = true <->
  exists kx ky, key x = Some kx /\ key y = Some ky /\ (key_lt kx ky \/ kx = ky).
Proof.
  rewrite FloatAxioms.leb_spec. unfold SFleb, key.
  destruct (SFkey (Prim2SF x)) as [kx |] eqn:Hx.
  - destruct (SFkey (Prim2SF y)) as [ky |] eqn:Hy.
    + destruct (SFcompare_key _ _ kx ky Hx Hy) as (c & -> & Hlt & Heq & Hgt).
      split.
      * intros H. exists kx, ky. split; [reflexivity |]. split; [reflexivity |].
        destruct c; [right; apply Heq | left; apply Hlt | discriminate]; reflexivity.
      * intros (kx' & ky' & [= <-] & [= <-] & [Hk | Hk]).
        -- apply Hlt in Hk. rewrite Hk. reflexivity.
        -- apply Heq in Hk. rewrite Hk. reflexivity.
    + rewrite SFcompare_nan by (right; exact Hy).
      split; [discriminate | intros (? & ? & _ & [=] & _)].
  - rewrite SFcompare_nan by (left; exact Hx).
    split; [discriminate | intros (? & ? & [=] & _)].
Qed.

Lemma eqb_key (x y : PrimFloat.float) :
  PrimFloat.eqb x y = true <-> exists k, key x = Some k /\ key y = Some k.
Proof.
  rewrite FloatAxioms.eqb_spec. unfold SFeqb, key.
  destruct (SFkey (Prim2SF x)) as [kx |] eqn:Hx.
  - destruct (SFkey (Prim2SF y)) as [ky |] eqn:Hy.
    + destruct (SFcompare_key _ _ kx ky Hx Hy) as (c & -> & Hlt & Heq & Hgt).
      split.
      * intros H. exists kx. split; [reflexivity |]. f_equal. symmetry. apply Heq.
        destruct c; (reflexivity || discriminate).
      * intros (k & [= <-] & [= Hk]). symmetry in Hk. apply Heq in Hk. rewrite Hk.
        reflexivity.
    + rewrite SFcompare_nan by (right; exact Hy).
      split; [discriminate | intros (? & _ & [=])].
  - rewrite SFcompare_nan by (left; exact Hx).
    split; [discriminate | intros (? & [=] & _)].
Qed.

Lemma key_lt_irrefl (a : Z * Z * Z) : ~ key_lt a a.
Proof. destruct a as [[a1 a2] a3]. cbn. lia. Qed.

Lemma key_lt_trans (a b c : Z * Z * Z) : key_lt a b -> key_lt b c -> key_lt a c.
Proof. destruct a as [[a1 a2] a3], b as [[b1 b2] b3], c as [[c1 c2] c3]. cbn. lia. Qed.

Lemma ltb_irrefl (x : PrimFloat.float) : PrimFloat.ltb x x = false.
Proof.
  destruct (PrimFloat.ltb x x) eqn:E; [| reflexivity].
  apply ltb_key in E as (kx & ky & Hx & Hy & Hk).
  rewrite Hx in Hy. injection Hy as <-. destruct (key_lt_irrefl _ Hk).
Qed.

Lemma ltb_trans (x y z : PrimFloat.float) :
  PrimFloat.ltb x y = true -> PrimFloat.ltb y z = true -> PrimFloat.ltb x z = true.
Proof.
  intros H1 H2. apply ltb_key in H1 as (kx & ky & Hx & Hy & H1).
  apply ltb_key in H2 as (ky' & kz & Hy' & Hz & H2).
  rewrite Hy in Hy'. injection Hy' as <-.
  apply ltb_key. exists kx, kz. split; [exact Hx |]. split; [exact Hz |].
  exact (key_lt_trans _ _ _ H1 H2).
Qed.

Lemma leb_ltb_trans (x y z : PrimFloat.float) :
  PrimFloat.leb x y = true -> PrimFloat.ltb y z = true -> PrimFloat.ltb x z = true.
Proof.
  intros H1 H2. apply leb_key in H1 as (kx & ky & Hx & Hy & H1).
  apply ltb_key in H2 as (ky' & kz & Hy' & Hz & H2).
  rewrite Hy in Hy'. injection Hy' as <-.
  apply ltb_key. exists kx, kz. split; [exact Hx |]. split; [exact Hz |].
  destruct H1 as [H1 | ->]; [exact (key_lt_trans _ _ _ H1 H2) | exact H2].
Qed.

Lemma ltb_leb (x y : PrimFloat.float) :
  PrimFloat.ltb x y = true -> PrimFloat.leb x y = true.
Proof.
  intros H. apply ltb_key in H as (kx & ky & Hx & Hy & H).
  apply leb_key. exists kx, ky. auto.
Qed.

Lemma leb_not_ltb (x y : PrimFloat.float) :
  PrimFloat.leb x y = true -> PrimFloat.ltb y x = false.
Proof.
  intros H. destruct (PrimFloat.ltb y x) eqn:E; [| reflexivity].
  pose proof (leb_ltb_trans _ _ _ H E) as Hxx. rewrite ltb_irrefl in Hxx. discriminate.
Qed.

Lemma ltb_not_eqb (x y : PrimFloat.float) :
  PrimFloat.ltb x y = true -> PrimFloat.eqb x y = false.
Proof.
  intros H. destruct (PrimFloat.eqb x y) eqn:E; [| reflexivity].
  apply ltb_key in H as (kx & ky & Hx & Hy & H).
  apply eqb_key in E as (k & Hx' & Hy').
  rewrite Hx in Hx'. rewrite Hy in Hy'. injection Hx' as ->. injection Hy' as ->.
  destruct (key_lt_irrefl _ H).
Qed.

(** ** Subtraction of doubles: the sign of [x - y], the difference of equals *)

Lemma digits2_pos_bounds (m : positive) :
  (2 ^ (Z.pos (digits2_pos m) - 1) <= Z.pos m < 2 ^ Z.pos (digits2_pos m))%Z.
Proof.
  induction m as [m IH | m IH |].
  - cbn [digits2_pos]. rewrite Pos2Z.inj_succ.
    replace (Z.succ (Z.pos (digits2_pos m)) - 1)%Z with (Z.succ (Z.pos (digits2_pos m) - 1))%Z
      by lia.
    rewrite !Z.pow_succ_r by lia. lia.
  - cbn [digits2_pos]. rewrite Pos2Z.inj_succ.
    replace (Z.succ (Z.pos (digits2_pos m)) - 1)%Z with (Z.succ (Z.pos (digits2_pos m) - 1))%Z
      by lia.
    rewrite !Z.pow_succ_r by lia. lia.
  - cbn. lia.
Qed.

Lemma iter_xO_pow (m d : positive) :
  Z.pos (Pos.iter xO m d) = (Z.pos m * 2 ^ Z.pos d)%Z.
Proof.
  induction d as [| d IH] using Pos.peano_ind.
  - cbn. lia.
  - rewrite Pos.iter_succ, Pos2Z.inj_succ, Z.pow_succ_r by lia.
    rewrite Pos2Z.inj_xO, IH. lia.
Qed.

(** The mantissa aligned to a smaller exponent. *)
Lemma shl_align_value (m : positive) (e ez : Z) :
  (ez <= e)%Z ->
  Z.pos (fst (shl_align m e ez)) = (Z.pos m * 2 ^ (e - ez))%Z.
Proof.
  intros Hle. unfold shl_align.
  destruct (ez - e)%Z as [| d | d] eqn:E; cbn [fst].
  - replace (e - ez)%Z with 0%Z by lia. cbn. lia.
  - lia.
  - rewrite iter_xO_pow. f_equal. f_equal. lia.
Qed.

Lemma bounded_exponent (m : positive) (e : Z) :
  SpecFloat.bounded prec emax m e = true ->
  (-1074 <= e)%Z /\ (Z.pos (digits2_pos m) <= 53)%Z /\
  ((-1074 < e)%Z -> Z.pos (digits2_pos m) = 53%Z).
Proof.
  unfold SpecFloat.bounded, canonical_mantissa, fexp, SpecFloat.emin, prec, emax.
  intros H. apply andb_prop in H as [H _]. apply Z.eqb_eq in H. lia.
Qed.

(** Of two valid mantissas the one with the larger exponent, or with
    the same exponent and larger, is the larger once both are aligned. *)
Lemma aligned_gt (m1 m2 : positive) (e1 e2 : Z) :
  SpecFloat.bounded prec emax m1 e1 = true -> SpecFloat.bounded prec emax m2 e2 = true ->
  (e2 < e1 \/ (e2 = e1 /\ Z.pos m2 < Z.pos m1))%Z ->
  (Z.pos (fst (shl_align m2 e2 (Z.min e1 e2)))
   < Z.pos (fst (shl_align m1 e1 (Z.min e1 e2))))%Z.
Proof.
  intros H1 H2 Hlt.
  rewrite !shl_align_value by lia.
  destruct (bounded_exponent m1 e1 H1) as (Hmin1 & Hd1 & Hn1).
  destruct (bounded_exponent m2 e2 H2) as (Hmin2 & Hd2 & Hn2).
  pose proof (digits2_pos_bounds m1) as Hb1.
  pose proof (digits2_pos_bounds m2) as Hb2.
  destruct Hlt as [Hlt | [-> Hlt]].
  - rewrite Z.min_r by lia.
    replace (e2 - e2)%Z with 0%Z by lia. rewrite Z.pow_0_r, Z.mul_1_r.
    rewrite (Hn1 ltac:(lia)) in Hb1.
    assert (2 ^ 1 <= 2 ^ (e1 - e2))%Z as Hp by (apply Z.pow_le_mono_r; lia).
    assert (Z.pos m2 < 2 ^ 53)%Z as Hm2.
    { eapply Z.lt_le_trans; [apply Hb2 |]. apply Z.pow_le_mono_r; lia. }
    change (2 ^ (53 - 1))%Z with 4503599627370496%Z in Hb1.
    change (2 ^ 53)%Z with 9007199254740992%Z in Hm2.
    change (2 ^ 1)%Z with 2%Z in Hp.
    nia.
  - rewrite Z.min_id. replace (e1 - e1)%Z with 0%Z by lia.
    rewrite Z.pow_0_r. lia.
Qed.

Lemma iter_pos_nat {A : Type} (f : A -> A) (p : positive) (x : A) :
  SpecFloat.iter_pos f p x = Nat.iter (Pos.to_nat p) f x.
Proof.
  revert x. induction p as [p IH | p IH |]; intros x; cbn [SpecFloat.iter_pos].
  - rewrite !IH, Pos2Nat.inj_xI.
    replace (S (2 * Pos.to_nat p)) with (Pos.to_nat p + (Pos.to_nat p + 1))%nat by lia.
    rewrite !Nat.iter_add. reflexivity.
  - rewrite !IH, Pos2Nat.inj_xO.
    replace (2 * Pos.to_nat p)%nat with (Pos.to_nat p + Pos.to_nat p)%nat by lia.
    rewrite Nat.iter_add. reflexivity.
  - reflexivity.
Qed.

(** Shifting a positive mantissa by fewer bits than it has leaves a
    positive mantissa. *)
Lemma shr_1_iter_positive (k : nat) :
  forall (m : positive) (r s : bool),
    (k < Pos.to_nat (digits2_pos m))%nat ->
    exists m' r' s',
      Nat.iter k shr_1 (Build_shr_record (Z.pos m) r s) = Build_shr_record (Z.pos m') r' s'.
Proof.
  induction k as [| k IH]; intros m r s Hk.
  - exists m, r, s. reflexivity.
  - rewrite Nat.iter_succ_r.
    destruct m as [m | m |]; cbn [shr_1];
      cbn [digits2_pos] in Hk; try rewrite Pos2Nat.inj_succ in Hk.
    + apply IH. lia.
    + apply IH. lia.
    + cbn in Hk. lia.
Qed.

Lemma shr_fexp_positive (m : positive) (e : Z) (l : location) :
  (-1074 <= e)%Z ->
  exists m' r' s' e',
    shr_fexp prec emax (Z.pos m) e l = (Build_shr_record (Z.pos m') r' s', e') /\
    (-1074 <= e')%Z.
Proof.
  intros He. unfold shr_fexp, shr.
  assert (exists r s, shr_record_of_loc (Z.pos m) l = Build_shr_record (Z.pos m) r s)
    as (r & s & ->) by (destruct l as [| []]; eexists _, _; reflexivity).
  destruct (fexp prec emax (Zdigits2 (Z.pos m) + e) - e)%Z as [| n | n] eqn:En.
  - eexists _, _, _, _. split; [reflexivity | exact He].
  - rewrite iter_pos_nat.
    assert (Pos.to_nat n < Pos.to_nat (digits2_pos m))%nat as Hn.
    { revert En. unfold fexp, SpecFloat.emin, prec, emax. cbn [Zdigits2]. lia. }
    destruct (shr_1_iter_positive _ m r s Hn) as (m' & r' & s' & ->).
    eexists _, _, _, _. split; [reflexivity | lia].
  - eexists _, _, _, _. split; [reflexivity | exact He].
Qed.

Lemma binary_round_aux_positive (m : positive) (e : Z) (l : location) :
  (-1074 <= e)%Z ->
  SFltb (S754_zero false) (binary_round_aux prec emax false (Z.pos m) e l) = true.
Proof.
  intros He. unfold binary_round_aux.
  destruct (shr_fexp_positive m e l He) as (m' & r' & s' & e' & -> & He').
  cbn [shr_m].
  assert (exists m'', round_nearest_even (Z.pos m') (loc_of_shr_record
                        (Build_shr_record (Z.pos m') r' s')) = Z.pos m'') as [m'' ->].
  { unfold round_nearest_even.
    destruct (loc_of_shr_record _) as [| []]; try (eexists; reflexivity).
    destruct (Z.even (Z.pos m')); eexists; reflexivity. }
  destruct (shr_fexp_positive m'' e' loc_Exact He') as (m3 & r3 & s3 & e3 & -> & _).
  cbn [shr_m]. destruct (e3 <=? emax - prec)%Z; reflexivity.
Qed.

Lemma binary_normalize_positive (d ez : Z) :
  (0 < d)%Z -> (-1074 <= ez)%Z ->
  SFltb (S754_zero false) (binary_normalize prec emax d ez false) = true.
Proof.
  intros Hd He. destruct d as [| d | d]; try lia.
  cbn [binary_normalize]. unfold binary_round.
  destruct (shl_align d ez (fexp prec emax (Z.pos (digits2_pos d) + ez))) as [mz ez'] eqn:E.
  apply binary_round_aux_positive.
  revert E. unfold shl_align, fexp, SpecFloat.emin, prec, emax.
  destruct (Z.max _ _ - ez)%Z eqn:En; intros [= <- <-]; lia.
Qed.

Lemma compare_order (m1 m2 : positive) (e1 e2 : Z) :
  match (e1 ?= e2)%Z with
  | Eq => Pos.compare_cont Eq m1 m2
  | Lt => Lt
  | Gt => Gt
  end = Lt ->
  (e1 < e2 \/ (e1 = e2 /\ Z.pos m1 < Z.pos m2))%Z.
Proof.
  destruct (Z.compare_spec e1 e2) as [-> | H | H]; [| lia | discriminate].
  change (Pos.compare_cont Eq m1 m2) with (Pos.compare m1 m2).
  destruct (Pos.compare_spec m1 m2) as [-> | Hm | Hm]; try discriminate. lia.
Qed.

Lemma compare_order_opp (m1 m2 : positive) (e1 e2 : Z) :
  match (e1 ?= e2)%Z with
  | Eq => CompOpp (Pos.compare_cont Eq m1 m2)
  | Lt => Gt
  | Gt => Lt
  end = Lt ->
  (e2 < e1 \/ (e2 = e1 /\ Z.pos m2 < Z.pos m1))%Z.
Proof.
  destruct (Z.compare_spec e1 e2) as [-> | H | H]; [| discriminate | lia].
  change (Pos.compare_cont Eq m1 m2) with (Pos.compare m1 m2).
  destruct (Pos.compare_spec m1 m2) as [-> | Hm | Hm]; cbn; try discriminate. lia.
Qed.

Lemma SFsub_positive (x y : spec_float) :
  valid_binary x = true -> valid_binary y = true ->
  SFltb y x = true ->
  SFltb (S754_zero false) (SF64sub x y) = true.
Proof.
  intros Hx Hy Hlt. unfold SF64sub. unfold SFltb in Hlt.
  destruct x as [sx | sx | | sx mx ex], y as [sy | sy | | sy my ey];
    cbn [SFcompare] in Hlt; cbn [SFsub];
    try discriminate Hlt;
    try (destruct sx; try destruct sy; try discriminate Hlt; reflexivity);
    try (destruct sy; try discriminate Hlt; reflexivity).
  cbn [valid_binary] in Hx, Hy.
  destruct (bounded_exponent mx ex Hx) as (Hex & _).
  destruct (bounded_exponent my ey Hy) as (Hey & _).
  apply binary_normalize_positive; [| lia].
  destruct sy, sx; cbn [cond_Zopp]; try discriminate Hlt.
  - assert (match (ey ?= ex)%Z with
            | Eq => CompOpp (Pos.compare_cont Eq my mx)
            | Lt => Gt
            | Gt => Lt
            end = Lt) as Hc
      by (destruct (match (ey ?= ex)%Z with Eq => _ | Lt => _ | Gt => _ end);
          (reflexivity || discriminate Hlt)).
    apply compare_order_opp in Hc.
    pose proof (aligned_gt my mx ey ex Hy Hx Hc) as Hgt.
    rewrite Z.min_comm in Hgt. lia.
  - lia.
  - assert (match (ey ?= ex)%Z with
            | Eq => Pos.compare_cont Eq my mx
            | Lt => Lt
            | Gt => Gt
            end = Lt) as Hc
      by (destruct (match (ey ?= ex)%Z with Eq => _ | Lt => _ | Gt => _ end);
          (reflexivity || discriminate Hlt)).
    apply compare_order in Hc.
    pose proof (aligned_gt mx my ex ey Hx Hy Hc) as Hgt. lia.
Qed.

(** The difference of two doubles is positive when the first is the
    greater: it cannot round to zero. *)
Lemma sub_positive (x y : PrimFloat.float) :
  (y <? x)%float = true -> (0 <? x - y)%float = true.
Proof.
  rewrite !FloatAxioms.ltb_spec, sub_spec. intros H.
  change (Prim2SF 0%float) with (S754_zero false).
  apply SFsub_positive; [apply Prim2SF_valid | apply Prim2SF_valid | exact H].
Qed.

(** Two doubles that are equal for [==], the first of them finite:
    their difference is a zero. *)
Lemma sub_eqb (x y : PrimFloat.float) :
  (x =? y)%float = true -> (PrimFloat.abs x <? PrimFloat.infinity)%float = true ->
  (x - y =? 0)%float = true.
Proof.
  intros Heq Hfin. apply eqb_key in Heq as (k & Hx & Hy).
  rewrite FloatAxioms.ltb_spec, abs_spec in Hfin.
  rewrite FloatAxioms.eqb_spec, sub_spec.
  change (Prim2SF 0%float) with (S754_zero false).
  change (Prim2SF PrimFloat.infinity) with (S754_infinity false) in Hfin.
  unfold key in Hx, Hy.
  destruct (Prim2SF x) as [sx | sx | | sx mx ex]; cbn in Hfin; try discriminate Hfin;
    destruct (Prim2SF y) as [sy | sy | | sy my ey]; cbn [SFkey] in Hx, Hy;
    try discriminate Hy;
    try (destruct sx; discriminate Hx);
    try (destruct sy; discriminate Hy);
    try (destruct sx; injection Hx as <-; destruct sy; discriminate Hy).
  - destruct sx, sy; reflexivity.
  - assert (sx = sy /\ mx = my /\ ex = ey) as (-> & -> & ->).
    { destruct sx, sy; injection Hx as <-; injection Hy as H1 H2; try discriminate;
        repeat split; lia. }
    unfold SF64sub. cbn [SFsub]. rewrite Z.sub_diag. reflexivity.
Qed.

(** ** [pick_heading] on doubles *)

Lemma tier_step_cases (ok : planner64.heading -> bool)
    (sc : planner64.heading -> PrimFloat.float)
    (st : PrimFloat.float * PrimFloat.float) (x : planner64.heading) :
  (ok x = true /\ (sc x <? snd st)%float = true /\ tier_step ok sc st x = (fst x, sc x)) \/
  ((ok x = true -> (sc x <? snd st)%float = false) /\ tier_step ok sc st x = st).
Proof.
  unfold tier_step. destruct (ok x); [destruct (sc x <? snd st)%float |]; cbn [andb].
  - left. auto.
  - right. auto.
  - right. split; [discriminate | reflexivity].
Qed.

Lemma fold_tier_step (ok : planner64.heading -> bool)
    (sc : planner64.heading -> PrimFloat.float)
    (l : list planner64.heading) (a0 b0 : PrimFloat.float) :
  let r := fold_left (tier_step ok sc) l (a0, b0) in
  (r = (a0, b0) /\
   forall e, In e l -> ok e = true -> (sc e <? b0)%float = false) \/
  (exists pre e post,
     l = pre ++ e :: post /\ ok e = true /\ r = (fst e, sc e) /\
     (sc e <? b0)%float = true /\
     (forall e', In e' pre -> ok e' = true -> (sc e' <=? sc e)%float = false) /\
     (forall e', In e' post -> ok e' = true -> (sc e' <? sc e)%float = false)).
Proof.
  induction l as [| x l IH] using rev_ind; cbn zeta.
  - left. split; [reflexivity | intros e []].
  - rewrite fold_left_app. cbn [fold_left]. cbn zeta in IH.
    destruct IH as [[-> Hnone] | (pre & e & post & -> & Hok & -> & Hlt & Hpre & Hpost)].
    + destruct (tier_step_cases ok sc (a0, b0) x) as [(Hx & Hxb & ->) | (Hno & ->)];
        cbn [snd] in *.
      * right. exists l, x, []. split; [reflexivity |]. split; [exact Hx |].
        split; [reflexivity |]. split; [exact Hxb |]. split; [| intros e' []].
        intros e' Hin Hok'. specialize (Hnone e' Hin Hok').
        destruct (sc e' <=? sc x)%float eqn:Hle; [| reflexivity].
        rewrite (leb_ltb_trans _ _ _ Hle Hxb) in Hnone. discriminate.
      * left. split; [reflexivity |]. intros e' Hin Hok'.
        apply in_app_or in Hin as [Hin | [<- | []]];
          [exact (Hnone e' Hin Hok') | exact (Hno Hok')].
    + destruct (tier_step_cases ok sc (fst e, sc e) x) as [(Hx & Hxe & ->) | (Hno & ->)];
        cbn [snd] in *.
      * right. exists (pre ++ e :: post), x, [].
        split; [reflexivity |]. split; [exact Hx |]. split; [reflexivity |].
        split; [exact (ltb_trans _ _ _ Hxe Hlt) |]. split; [| intros e' []].
        intros e' Hin Hok'.
        destruct (sc e' <=? sc x)%float eqn:Hle; [| reflexivity].
        pose proof (leb_ltb_trans _ _ _ Hle Hxe) as Hlt'.
        apply in_app_or in Hin as [Hin | [<- | Hin]].
        -- pose proof (Hpre e' Hin Hok') as Hc.
           rewrite (ltb_leb _ _ Hlt') in Hc. discriminate.
        -- rewrite ltb_irrefl in Hlt'. discriminate.
        -- pose proof (Hpost e' Hin Hok') as Hc. rewrite Hlt' in Hc. discriminate.
      * right. exists pre, e, (post ++ [x]).
        split; [rewrite <- app_assoc; reflexivity |]. split; [exact Hok |].
        split; [reflexivity |]. split; [exact Hlt |]. split; [exact Hpre |].
        intros e' Hin Hok'.
        apply in_app_or in Hin as [Hin | [<- | []]];
          [exact (Hpost e' Hin Hok') | exact (Hno Hok')].
Qed.

Lemma safe_step_tier_step (g ow gw thr : PrimFloat.float)
    (st : PrimFloat.float * PrimFloat.float) (e : planner64.heading) :
  planner64.safe_step g ow gw thr st e
  = tier_step (safe64 thr) (planner64.heading_score g ow gw) st e.
Proof. destruct st as [a b], e as [ang oc]. reflexivity. Qed.

Lemma any_step_tier_step (g ow gw : PrimFloat.float)
    (st : PrimFloat.float * PrimFloat.float) (e : planner64.heading) :
  planner64.any_step g ow gw st e
  = tier_step every64 (planner64.heading_score g ow gw) st e.
Proof. destruct st as [a b], e as [ang oc]. reflexivity. Qed.

(** The two tiers of [pick_heading]: the first least safe entry when
    a safe entry has a score below [inf]; otherwise the first least
    entry of the whole field when some entry has one; otherwise the
    initial pair. *)
Lemma pick_heading_tiers (field : list planner64.heading) (g ow gw thr : PrimFloat.float) :
  let sc := planner64.heading_score g ow gw in
  let r := planner64.pick_heading field g ow gw thr in
  first_least (safe64 thr) sc field r \/
  ((forall e, In e field -> safe64 thr e = true ->
              (sc e <? PrimFloat.infinity)%float = false) /\
   (first_least every64 sc field r \/
    (r = (0%float, PrimFloat.infinity) /\
     forall e, In e field -> (sc e <? PrimFloat.infinity)%float = false))).
Proof.
  intros sc r. unfold r, planner64.pick_heading.
  rewrite (fold_left_pointwise (planner64.safe_step g ow gw thr)
             (tier_step (safe64 thr) sc) field _ (safe_step_tier_step g ow gw thr)).
  destruct (fold_tier_step (safe64 thr) sc field 0%float PrimFloat.infinity)
    as [[-> Hnone] | (pre & e & post & Hl & Hok & -> & Hlt & Hpre & Hpost)]; cbn [snd].
  - right. split; [exact Hnone |].
    change (PrimFloat.infinity =? PrimFloat.infinity)%float with true. cbn iota.
    rewrite (fold_left_pointwise (planner64.any_step g ow gw)
               (tier_step every64 sc) field _ (any_step_tier_step g ow gw)).
    destruct (fold_tier_step every64 sc field 0%float PrimFloat.infinity)
      as [[-> Hnone'] | (pre & e & post & Hl & Hok & -> & Hlt & Hpre & Hpost)].
    + right. split; [reflexivity |]. intros e Hin. apply Hnone'; [exact Hin | reflexivity].
    + left. exists pre, e, post. repeat split; assumption.
  - left. rewrite (ltb_not_eqb _ _ Hlt).
    exists pre, e, post. repeat split; assumption.
Qed.

Lemma first_least_least (ok : planner64.heading -> bool)
    (sc : planner64.heading -> PrimFloat.float)
    (field : list planner64.heading) (r : PrimFloat.float * PrimFloat.float) :
  first_least ok sc field r ->
  exists oc,
    In (fst r, oc) field /\ ok (fst r, oc) = true /\ snd r = sc (fst r, oc) /\
    (snd r <? PrimFloat.infinity)%float = true /\
    forall e', In e' field -> ok e' = true -> (sc e' <? snd r)%float = false.
Proof.
  intros (pre & [a oc] & post & -> & Hok & -> & Hlt & Hpre & Hpost). cbn [fst snd].
  exists oc. split; [apply in_elt |]. split; [exact Hok |]. split; [reflexivity |].
  split; [exact Hlt |]. intros e' Hin Hok'.
  apply in_app_or in Hin as [Hin | [<- | Hin]].
  - specialize (Hpre e' Hin Hok').
    destruct (sc e' <? sc (a, oc))%float eqn:E; [| reflexivity].
    rewrite (ltb_leb _ _ E) in Hpre. discriminate.
  - apply ltb_irrefl.
  - exact (Hpost e' Hin Hok').
Qed.

Lemma first_least_angle (ok : planner64.heading -> bool)
    (sc : planner64.heading -> PrimFloat.float)
    (field : list planner64.heading) (r : PrimFloat.float * PrimFloat.float) :
  first_least ok sc field r ->
  StronglySorted (fun a b => (a <? b)%float = true) (map fst field) ->
  forall e', In e' field -> ok e' = true -> (sc e' <=? snd r)%float = true ->
             fst e' = fst r \/ (fst r <? fst e')%float = true.
Proof.
  intros (pre & e & post & -> & Hok & -> & Hlt & Hpre & Hpost) Hsorted e' Hin Hok' Hle.
  cbn [fst snd] in *.
  apply in_app_or in Hin as [Hin | [<- | Hin]].
  - rewrite (Hpre e' Hin Hok') in Hle. discriminate.
  - left. reflexivity.
  - right. rewrite map_app in Hsorted. cbn [map] in Hsorted.
    apply StronglySorted_app_1_r in Hsorted.
    apply StronglySorted_inv in Hsorted as [_ Hall].
    rewrite List.Forall_forall in Hall. apply Hall. apply in_map. exact Hin.
Qed.

(** C1, as stated, fails on doubles in two ways: a score that
    overflows never competes, so a field whose only safe entry has the
    score [inf] is answered with the initial angle [0.0], which is no
    angle of the field; and the computed scores of two entries may be
    equal where the score of the second is the smaller one, so the
    first is kept. *)
Lemma pick_heading_safe_not_least :
  ((exists e, In e field_far /\ safe64 safe_thr64 e = true) /\
   planner64.pick_heading field_far (-1e308)%float obs_w64 goal_w64 safe_thr64
   = (0%float, PrimFloat.infinity) /\
   ~ In 0%float (map fst field_far)) /\
  (Forall (fun e => safe64 safe_thr64 e = true) field_close /\
   fst (planner64.pick_heading field_close (-12)%float obs_w64 goal_w64 safe_thr64)
   = (-56)%float /\
   exists s s',
     exact_score (-12)%float obs_w64 goal_w64 (-56, 0.16875)%float = Some s /\
     exact_score (-12)%float obs_w64 goal_w64 (44, 0.06875)%float = Some s' /\
     s' < s).
Proof.
  split.
  - split; [exists (1e308, 0)%float; split; [left; reflexivity | reflexivity] |].
    split; [reflexivity |].
    intros [H | []]. apply (f_equal Prim2SF) in H. vm_compute in H. discriminate.
  - split; [repeat constructor |]. split; [reflexivity |].
    eexists _, _. split; [vm_compute; reflexivity |]. split; [vm_compute; reflexivity |].
    vm_compute. reflexivity.
Qed.

(** C1.  A cost field with at least one entry of cost strictly below
    the safety threshold whose computed score is below [inf]:
    [pick_heading] returns the angle of an entry whose cost is strictly
    below the threshold, with its score, and that score, as the doubles
    compute [obs_w * cost + goal_w * (|angle - goal_bearing| / 60)], is
    minimal among the entries below the threshold. *)
Theorem pick_heading_safe_least (field : list planner64.heading)
    (g ow gw thr : PrimFloat.float) :
  (exists e, In e field /\ (snd e <? thr)%float = true /\
             (planner64.heading_score g ow gw e <? PrimFloat.infinity)%float = true) ->
  let r := planner64.pick_heading field g ow gw thr in
  exists oc,
    In (fst r, oc) field /\ (oc <? thr)%float = true /\
    snd r = planner64.heading_score g ow gw (fst r, oc) /\
    forall e', In e' field -> (snd e' <? thr)%float = true ->
               (planner64.heading_score g ow gw e' <? snd r)%float = false.
Proof.
  intros (e & Hin & Hsafe & Hfin) r.
  destruct (pick_heading_tiers field g ow gw thr) as [Hfirst | [Hnone _]].
  - destruct (first_least_least _ _ _ _ Hfirst) as (oc & Hoc & Hok & Hs & _ & Hmin).
    exists oc. split; [exact Hoc |]. split; [exact Hok |]. split; [exact Hs |]. exact Hmin.
  - rewrite (Hnone e Hin Hsafe) in Hfin. discriminate.
Qed.

Lemma pick_heading_safe_least_witness :
  (exists e, In e field_mixed64 /\ (snd e <? safe_thr64)%float = true /\
             (planner64.heading_score 0%float obs_w64 goal_w64 e
              <? PrimFloat.infinity)%float = true) /\
  fst (planner64.pick_heading field_mixed64 0%float obs_w64 goal_w64 safe_thr64) = 0%float /\
  exists oc,
    In (0%float, oc) field_mixed64 /\ (oc <? safe_thr64)%float = true /\
    snd (planner64.pick_heading field_mixed64 0%float obs_w64 goal_w64 safe_thr64)
    = planner64.heading_score 0%float obs_w64 goal_w64 (0%float, oc) /\
    forall e', In e' field_mixed64 -> (snd e' <? safe_thr64)%float = true ->
               (planner64.heading_score 0%float obs_w64 goal_w64 e'
                <? snd (planner64.pick_heading field_mixed64 0%float obs_w64 goal_w64
                          safe_thr64))%float = false.
Proof.
  assert (exists e, In e field_mixed64 /\ (snd e <? safe_thr64)%float = true /\
                    (planner64.heading_score 0%float obs_w64 goal_w64 e
                     <? PrimFloat.infinity)%float = true) as H.
  { exists (0, 0.2)%float. split; [right; left; reflexivity |]. split; reflexivity. }
  split; [exact H |]. split; [reflexivity |].
  exact (pick_heading_safe_least field_mixed64 0%float obs_w64 goal_w64 safe_thr64 H).
Defined.

(** C2, as stated, fails on doubles in the same two ways:
    the only entry of a blocked field may have the score [inf], and
    then the answer is the initial angle [0.0]; and of two entries
    whose scores are equal without rounding the second is returned when
    its computed score is the smaller double. *)
Lemma pick_heading_fallback_not_first :
  (field_far_blocked <> [] /\
   Forall (fun e => (safe_thr64 <=? snd e)%float = true) field_far_blocked /\
   planner64.pick_heading field_far_blocked (-1e308)%float obs_w64 goal_w64 safe_thr64
   = (0%float, PrimFloat.infinity) /\
   ~ In 0%float (map fst field_far_blocked)) /\
  (field_tie <> [] /\
   Forall (fun e => (safe_thr64 <=? snd e)%float = true) field_tie /\
   fst (planner64.pick_heading field_tie (-148)%float obs_w64 goal_w64 safe_thr64)
   = 4%float /\
   exists s s',
     exact_score (-148)%float obs_w64 goal_w64 (-56, 1)%float = Some s /\
     exact_score (-148)%float obs_w64 goal_w64 (4, 0.5)%float = Some s' /\
     s == s').
Proof.
  split.
  - split; [discriminate |]. split; [repeat constructor |]. split; [reflexivity |].
    intros [H | []]. apply (f_equal Prim2SF) in H. vm_compute in H. discriminate.
  - split; [discriminate |]. split; [repeat constructor |]. split; [reflexivity |].
    eexists _, _. split; [vm_compute; reflexivity |]. split; [vm_compute; reflexivity |].
    vm_compute. reflexivity.
Qed.

(** C2.  A cost field whose every cost is at least the safety threshold
    and in which some entry has a computed score below [inf]:
    [pick_heading] returns the angle that minimizes the computed score
    over the entire field.  In both tiers the entry returned is the
    first one, in input order, of least computed score among the
    competing entries; when the angles of the field increase strictly
    every other competitor of that score has a greater angle. *)
Theorem pick_heading_fallback_least (field : list planner64.heading)
    (g ow gw thr : PrimFloat.float) :
  let sc := planner64.heading_score g ow gw in
  let r := planner64.pick_heading field g ow gw thr in
  ((forall e, In e field -> (thr <=? snd e)%float = true) ->
   (exists e, In e field /\ (sc e <? PrimFloat.infinity)%float = true) ->
   first_least every64 sc field r /\
   exists oc,
     In (fst r, oc) field /\ snd r = sc (fst r, oc) /\
     forall e', In e' field -> (sc e' <? snd r)%float = false) /\
  ((exists e, In e field /\ (snd e <? thr)%float = true /\
              (sc e <? PrimFloat.infinity)%float = true) ->
   first_least (safe64 thr) sc field r) /\
  (forall ok, first_least ok sc field r ->
   StronglySorted (fun a b => (a <? b)%float = true) (map fst field) ->
   forall e', In e' field -> ok e' = true -> (sc e' <=? snd r)%float = true ->
              fst e' = fst r \/ (fst r <? fst e')%float = true).
Proof.
  intros sc r. split; [| split].
  - intros Hall (e & Hin & Hfin).
    destruct (pick_heading_tiers field g ow gw thr)
      as [(pre & e0 & post & Hl & Hok & _) | [_ [Hfirst | [_ Hnone]]]].
    + exfalso. unfold safe64 in Hok.
      assert (In e0 field) as Hin0 by (rewrite Hl; apply in_elt).
      rewrite (leb_not_ltb _ _ (Hall e0 Hin0)) in Hok. discriminate.
    + split; [exact Hfirst |].
      destruct (first_least_least _ _ _ _ Hfirst) as (oc & Hoc & _ & Hs & _ & Hmin).
      exists oc. split; [exact Hoc |]. split; [exact Hs |].
      intros e' Hin'. apply Hmin; [exact Hin' | reflexivity].
    + fold sc in Hnone. rewrite (Hnone e Hin) in Hfin. discriminate.
  - intros (e & Hin & Hsafe & Hfin).
    destruct (pick_heading_tiers field g ow gw thr) as [Hfirst | [Hnone _]];
      [exact Hfirst |].
    fold sc in Hnone. rewrite (Hnone e Hin Hsafe) in Hfin. discriminate.
  - intros ok. apply first_least_angle.
Qed.

Lemma pick_heading_fallback_least_witness :
  ((forall e, In e field_blocked64 -> (safe_thr64 <=? snd e)%float = true) /\
   exists e, In e field_blocked64 /\
             (planner64.heading_score 0%float obs_w64 goal_w64 e
              <? PrimFloat.infinity)%float = true) /\
  first_least every64 (planner64.heading_score 0%float obs_w64 goal_w64) field_blocked64
    (planner64.pick_heading field_blocked64 0%float obs_w64 goal_w64 safe_thr64) /\
  fst (planner64.pick_heading field_blocked64 0%float obs_w64 goal_w64 safe_thr64)
  = (-30)%float.
Proof.
  assert (forall e, In e field_blocked64 -> (safe_thr64 <=? snd e)%float = true) as Hall.
  { intros e [<- | [<- | [<- | []]]]; reflexivity. }
  assert (exists e, In e field_blocked64 /\
                    (planner64.heading_score 0%float obs_w64 goal_w64 e
                     <? PrimFloat.infinity)%float = true) as Hfin.
  { exists (-30, 0.5)%float. split; [right; left; reflexivity | reflexivity]. }
  split; [split; assumption |]. split; [| reflexivity].
  exact (proj1 (proj1 (pick_heading_fallback_least field_blocked64 0%float obs_w64 goal_w64
                         safe_thr64) Hall Hfin)).
Defined.

(** X1.  [pick_heading] never invents a heading: it returns the angle
    of an entry of the field together with the computed score of that
    entry, a score below [inf], or else its initial pair [(0.0, inf)],
    and the latter exactly when no entry of the field has a computed
    score below [inf] (an empty field, costs that are [nan], scores
    that overflow). *)
Theorem pick_heading_from_field (field : list planner64.heading)
    (g ow gw thr : PrimFloat.float) :
  let sc := planner64.heading_score g ow gw in
  let r := planner64.pick_heading field g ow gw thr in
  (r = (0%float, PrimFloat.infinity) /\
   forall e, In e field -> (sc e <? PrimFloat.infinity)%float = false) \/
  (exists oc, In (fst r, oc) field /\ snd r = sc (fst r, oc) /\
              (snd r <? PrimFloat.infinity)%float = true /\
              exists e, In e field /\ (sc e <? PrimFloat.infinity)%float = true).
Proof.
  intros sc r.
  destruct (pick_heading_tiers field g ow gw thr) as [Hfirst | [_ [Hfirst | Hinit]]].
  - right. destruct (first_least_least _ _ _ _ Hfirst) as (oc & Hoc & _ & Hs & Hlt & _).
    exists oc. split; [exact Hoc |]. split; [exact Hs |]. split; [exact Hlt |].
    exists (fst r, oc). split; [exact Hoc |]. fold r in Hs, Hlt. fold sc in Hs.
    rewrite <- Hs. exact Hlt.
  - right. destruct (first_least_least _ _ _ _ Hfirst) as (oc & Hoc & _ & Hs & Hlt & _).
    exists oc. split; [exact Hoc |]. split; [exact Hs |]. split; [exact Hlt |].
    exists (fst r, oc). split; [exact Hoc |]. fold r in Hs, Hlt. fold sc in Hs.
    rewrite <- Hs. exact Hlt.
  - left. exact Hinit.
Qed.

(** ** The goal bearing on doubles *)

Lemma to_dict64_x (p : Vec3f) : to_dict64 p !! "x"%string = Some (fx p).
Proof. reflexivity. Qed.

Lemma to_dict64_z (p : Vec3f) : to_dict64 p !! "z"%string = Some (fz p).
Proof. reflexivity. Qed.

Lemma bearing64_to_dict (atan2_deg : PrimFloat.float -> PrimFloat.float -> PrimFloat.float)
    (pose goal : Vec3f) :
  planner64.goal_bearing_from_position atan2_deg (to_dict64 pose) (to_dict64 goal)
  = Some (atan2_deg (fx goal - fx pose)%float (fz goal - fz pose)%float).
Proof.
  unfold planner64.goal_bearing_from_position.
  rewrite !to_dict64_x, !to_dict64_z. reflexivity.
Qed.

(** C9, as stated for every pose, goal and translation, fails on
    doubles.  A translation by [1e17] absorbs the coordinates of pose
    and goal: the translated pair hands [(0.0, 0.0)] to [atan2] where
    the original pair hands it [(3.0, 5.0)], so the two bearings differ
    as the values of [atan2] there do.  And a goal directly ahead of a
    pose whose [x] is infinite hands [nan] to [atan2]. *)
Lemma bearing_translation_absorbed :
  (forall atan2_deg,
     planner64.goal_bearing_from_position atan2_deg
       (to_dict64 (vadd64 pose0 far_away)) (to_dict64 (vadd64 goal35 far_away))
     = Some (atan2_deg 0%float 0%float)) /\
  (forall atan2_deg,
     planner64.goal_bearing_from_position atan2_deg (to_dict64 pose0) (to_dict64 goal35)
     = Some (atan2_deg 3%float 5%float)) /\
  (forall atan2_deg,
     atan2_deg 3%float 5%float <> atan2_deg 0%float 0%float ->
     planner64.goal_bearing_from_position atan2_deg
       (to_dict64 (vadd64 pose0 far_away)) (to_dict64 (vadd64 goal35 far_away))
     <> planner64.goal_bearing_from_position atan2_deg (to_dict64 pose0) (to_dict64 goal35)) /\
  (fx goal_inf = fx pose_inf /\ (fz pose_inf <? fz goal_inf)%float = true /\
   forall atan2_deg,
     planner64.goal_bearing_from_position atan2_deg (to_dict64 pose_inf) (to_dict64 goal_inf)
     = Some (atan2_deg PrimFloat.nan 1%float)).
Proof.
  assert (forall atan2_deg,
            planner64.goal_bearing_from_position atan2_deg
              (to_dict64 (vadd64 pose0 far_away)) (to_dict64 (vadd64 goal35 far_away))
            = Some (atan2_deg 0%float 0%float)) as H1
    by (intros atan2_deg; rewrite bearing64_to_dict; reflexivity).
  assert (forall atan2_deg,
            planner64.goal_bearing_from_position atan2_deg (to_dict64 pose0)
              (to_dict64 goal35)
            = Some (atan2_deg 3%float 5%float)) as H2
    by (intros atan2_deg; rewrite bearing64_to_dict; reflexivity).
  split; [exact H1 |]. split; [exact H2 |]. split.
  - intros atan2_deg Hne. rewrite H1, H2. intros [= H]. apply Hne. symmetry. exact H.
  - split; [reflexivity |]. split; [reflexivity |].
    intros atan2_deg. rewrite bearing64_to_dict. reflexivity.
Qed.

(** C9.  The bearing is a function of the two differences
    [goal.x - pose.x] and [goal.z - pose.z] as the doubles compute
    them: a common translation that leaves these two differences as
    they are leaves the bearing as it is; and for a goal directly ahead
    of a pose with a finite [x] along [+z], equal [x] and strictly
    greater [z], the bearing is [0]. *)
Theorem goal_bearing_translation_ahead
    (atan2_deg : PrimFloat.float -> PrimFloat.float -> PrimFloat.float)
    (pose goal t : Vec3f) :
  atan2_ahead atan2_deg ->
  ((fx goal + fx t - (fx pose + fx t) = fx goal - fx pose)%float ->
   (fz goal + fz t - (fz pose + fz t) = fz goal - fz pose)%float ->
   planner64.goal_bearing_from_position atan2_deg
     (to_dict64 (vadd64 pose t)) (to_dict64 (vadd64 goal t))
   = planner64.goal_bearing_from_position atan2_deg (to_dict64 pose) (to_dict64 goal)) /\
  ((fx goal =? fx pose)%float = true -> finite64 (fx goal) ->
   (fz pose <? fz goal)%float = true ->
   exists b,
     planner64.goal_bearing_from_position atan2_deg (to_dict64 pose) (to_dict64 goal)
     = Some b /\ (b =? 0)%float = true).
Proof.
  intros Hlib. split.
  - intros Hx Hz. rewrite !bearing64_to_dict. cbn [vadd64 fx fz].
    rewrite Hx, Hz. reflexivity.
  - intros Hx Hfin Hz. rewrite bearing64_to_dict. eexists. split; [reflexivity |].
    apply Hlib; [exact (sub_eqb _ _ Hx Hfin) | exact (sub_positive _ _ Hz)].
Qed.

Lemma goal_bearing_translation_ahead_witness :
  atan2_ahead (fun dx dz => dx) /\
  ((fx goal35 + fx nearby - (fx pose0 + fx nearby) = fx goal35 - fx pose0)%float /\
   (fz goal35 + fz nearby - (fz pose0 + fz nearby) = fz goal35 - fz pose0)%float) /\
  planner64.goal_bearing_from_position (fun dx dz => dx)
    (to_dict64 (vadd64 pose0 nearby)) (to_dict64 (vadd64 goal35 nearby))
  = planner64.goal_bearing_from_position (fun dx dz => dx)
      (to_dict64 pose0) (to_dict64 goal35) /\
  exists b,
    planner64.goal_bearing_from_position (fun dx dz => dx)
      (to_dict64 nearby) (to_dict64 (mkVec3f 16 0 7))
    = Some b /\ (b =? 0)%float = true.
Proof.
  assert (atan2_ahead (fun dx dz => dx)) as Hlib by (intros dx dz H _; exact H).
  assert ((fx goal35 + fx nearby - (fx pose0 + fx nearby) = fx goal35 - fx pose0)%float)
    as Hx by reflexivity.
  assert ((fz goal35 + fz nearby - (fz pose0 + fz nearby) = fz goal35 - fz pose0)%float)
    as Hz by reflexivity.
  split; [exact Hlib |]. split; [split; assumption |]. split.
  - exact (proj1 (goal_bearing_translation_ahead (fun dx dz => dx) pose0 goal35 nearby Hlib)
             Hx Hz).
  - exact (proj2 (goal_bearing_translation_ahead (fun dx dz => dx) nearby
                    (mkVec3f 16 0 7) pose0 Hlib)
             eq_refl eq_refl eq_refl).
Defined.

(** ** [sample_headings] *)

Lemma linspace_length (start stop : Q) (num : nat) :
  length (vision.linspace start stop num) = num.
Proof.
  unfold vision.linspace. destruct num as [| [| n]]; [reflexivity | reflexivity |].
  rewrite length_map, length_seq. reflexivity.
Qed.

Section linspace_facts.
Variables (start stop : Q) (n : nat).
Hypothesis Hlt : start < stop.

Let step : Q := (stop - start) / inject_Z (Z.of_nat (S n)).

Let sample (i : nat) : Q :=
  if Nat.eqb i (S n) then stop else start + inject_Z (Z.of_nat i) * step.

Lemma linspace_unfold :
  vision.linspace start stop (S (S n)) = map sample (seq 0 (S (S n))).
Proof. reflexivity. Qed.

Lemma linspace_step_pos : 0 < step.
Proof.
  unfold step. apply Qlt_shift_div_l.
  - change 0 with (inject_Z 0). rewrite <- Zlt_Qlt. lia.
  - lra.
Qed.

Lemma linspace_step_total : inject_Z (Z.of_nat (S n)) * step == stop - start.
Proof.
  assert (0 < inject_Z (Z.of_nat (S n))) as Hpos
    by (change 0 with (inject_Z 0); rewrite <- Zlt_Qlt; lia).
  unfold step. field. intros H. lra.
Qed.

Lemma linspace_inner_le (i j : nat) :
  (i <= j)%nat -> inject_Z (Z.of_nat i) * step <= inject_Z (Z.of_nat j) * step.
Proof.
  intros Hij. apply Qmult_le_compat_r; [| apply Qlt_le_weak, linspace_step_pos].
  rewrite <- Zle_Qle. lia.
Qed.

Lemma linspace_sample_bounds (i : nat) :
  (i <= S n)%nat -> start <= sample i /\ sample i <= stop.
Proof.
  intros Hi. unfold sample.
  pose proof linspace_step_total as Ht.
  destruct (Nat.eqb_spec i (S n)) as [-> | Hne]; [lra |].
  pose proof (linspace_inner_le 0 i ltac:(lia)) as H0.
  pose proof (linspace_inner_le i (S n) Hi) as H1.
  change (inject_Z (Z.of_nat 0)) with 0 in H0. lra.
Qed.

Lemma linspace_bounds (a : Q) :
  In a (vision.linspace start stop (S (S n))) -> start <= a /\ a <= stop.
Proof.
  rewrite linspace_unfold. intros Hin.
  apply in_map_iff in Hin as (i & <- & Hi). apply in_seq in Hi.
  apply linspace_sample_bounds. lia.
Qed.
End linspace_facts.

Lemma column_in_range (tan_deg : Q -> Q) (w : nat) (a : Q) :
  (0 < w)%nat -> (0 <= vision.column tan_deg w a < Z.of_nat w)%Z.
Proof. intros Hw. unfold vision.column, vision.clip. lia. Qed.

Lemma band_column_in_range (mask : vision.Mask) (col : Z) :
  (0 <= col < Z.of_nat (vision.width mask))%Z ->
  vision.band_column mask col = Some (band_values mask col).
Proof.
  intros [H0 Hw]. unfold vision.band_column, band_values.
  apply Z.leb_le in H0. apply Z.ltb_lt in Hw. rewrite H0, Hw. reflexivity.
Qed.

Lemma sample_headings_total (tan_deg : Q -> Q) (mask : vision.Mask) (num : nat) (fov : Q) :
  (0 < vision.width mask)%nat ->
  vision.sample_headings tan_deg mask num fov
  = Some (map (fun a => (a, vision.mean_positive
                              (band_values mask
                                 (vision.column tan_deg (vision.width mask) a))))
              (vision.linspace (- fov / 2) (fov / 2) num)).
Proof.
  intros Hw. unfold vision.sample_headings.
  induction (vision.linspace (- fov / 2) (fov / 2) num) as [| a l IH]; [reflexivity |].
  cbn [mapM map]. rewrite IH.
  rewrite band_column_in_range by (apply column_in_range; exact Hw).
  reflexivity.
Qed.

(** On a mask fewer than three rows high the band is empty and every
    cost is [nan], whatever the projection. *)
Remark sample_headings_short_mask_any_tan (tan_deg : Q -> Q) :
  option_map (map snd) (vision.sample_headings tan_deg short_mask 2 120)
  = Some [NaN; NaN].
Proof.
  rewrite sample_headings_total by (cbn; lia). reflexivity.
Qed.

(** C8.  The invariant of the cost field, every cost within [0, 1],
    is what the comment of [sample_headings] promises; the code breaks
    it on a mask of one row and one column, of positive height and
    width: the band [mask[0:0, :]] is empty and both costs are [nan]. *)
Theorem sample_headings_short_mask_nan :
  ((0 < vision.height short_mask)%nat /\ (0 < vision.width short_mask)%nat /\
   (2 <= 2)%nat /\ 0 < 120) /\
  option_map (map snd) (vision.sample_headings (fun _ => 0) short_mask 2 120)
  = Some [NaN; NaN] /\
  ~ (exists l, vision.sample_headings (fun _ => 0) short_mask 2 120 = Some l /\
               cost_field_ok 120 2 l).
Proof.
  split; [cbn; repeat split; (lia || reflexivity) |].
  split; [reflexivity |].
  intros (l & Hl & _ & _ & Hcost).
  vm_compute in Hl. injection Hl as <-.
  destruct (Hcost _ NaN (or_introl eq_refl)) as (_ & c & Hc & _).
  discriminate.
Qed.

Example sample_headings_small_mask :
  option_map (map snd) (vision.sample_headings (fun a => a / 60) small_mask 3 120)
  = Some [Num 0; Num 1; Num 1].
Proof. vm_compute. reflexivity. Qed.

(** ** Corner tables *)

(** C3.  The two corner tables agree on [x] and carry opposite signs on
    [z], for each of the eight names: [corner_to_coords] puts the north
    (top) corners at [z = -45], the fallback table of
    [Navigator.set_goal] puts them at [z = +45]. *)
Theorem corner_tables_disagree :
  Forall (fun c =>
            exists x z,
              xz (server.corner_to_coords c server.default_margin) = Some (x, z) /\
              (agent.fallback_goal c ≫= xz) = Some (x, (- z)%Z) /\
              z <> 0%Z)
         corner_names.
Proof.
  repeat constructor; eexists; eexists;
    (split; [vm_compute; reflexivity | split; [vm_compute; reflexivity | discriminate]]).
Qed.

Example corner_NE :
  xz (server.corner_to_coords "NE" server.default_margin) = Some (45, -45)%Z /\
  (agent.fallback_goal "NE" ≫= xz) = Some (45, 45)%Z.
Proof. split; vm_compute; reflexivity. Qed.

(** ** The near band of the image analysis *)

Lemma foldl_list_prod {A : Type} (f : nat -> A -> nat -> A) (ys xs : list nat) (a : A) :
  foldl (fun acc y => foldl (f y) acc xs) a ys
  = foldl (fun acc e => f (fst e) acc (snd e)) a (list_prod ys xs).
Proof.
  revert a. induction ys as [| y ys IH]; intros a; cbn [foldl list_prod]; [reflexivity |].
  rewrite foldl_app, IH. f_equal.
  generalize a. clear. induction xs as [| x xs IH]; intros a; cbn; [reflexivity |].
  apply IH.
Qed.

Lemma near_events (img : server.RGBImage) (evs : list (nat * nat)) :
  forall (hist : list Z) (i : nat),
    foldl (fun acc e => server.near_step img (fst e) acc (snd e)) hist evs !! i
    = Z.add (near_hits img i evs) <$> hist !! i.
Proof.
  unfold near_hits.
  induction evs as [| [y x] evs IH]; intros hist i; cbn [foldl List.filter fst snd].
  - destruct (hist !! i); reflexivity.
  - rewrite IH. unfold server.near_step.
    destruct (server.is_near (server.load img x y)).
    + unfold server.bump. destruct (Nat.eqb_spec x i) as [-> | Hne]; cbn [andb].
      * rewrite list_lookup_alter_eq. destruct (hist !! i); cbn; [f_equal; lia | reflexivity].
      * rewrite list_lookup_alter_ne by exact Hne. reflexivity.
    + rewrite andb_false_r. reflexivity.
Qed.

Lemma near_histogram_lookup (img : server.RGBImage) (ys : list nat) (i : nat) :
  (i < server.size_w img)%nat ->
  server.near_histogram img ys !! i
  = Some (near_hits img i (list_prod ys (server.range2 (server.size_w img)))).
Proof.
  intros Hi. unfold server.near_histogram.
  rewrite (foldl_list_prod (server.near_step img)), near_events.
  rewrite lookup_replicate_2 by exact Hi. cbn. f_equal. lia.
Qed.

Lemma near_histogram_length (img : server.RGBImage) (ys : list nat) :
  length (server.near_histogram img ys) = server.size_w img.
Proof.
  unfold server.near_histogram. rewrite (foldl_list_prod (server.near_step img)).
  generalize (list_prod ys (server.range2 (server.size_w img))).
  intros evs.
  assert (forall hist,
            length (foldl (fun acc e => server.near_step img (fst e) acc (snd e)) hist evs)
            = length hist) as H.
  { induction evs as [| e evs IH]; intros hist; cbn [foldl]; [reflexivity |].
    rewrite IH. unfold server.near_step, server.bump.
    destruct (server.is_near _); [apply length_alter | reflexivity]. }
  rewrite H. apply length_replicate.
Qed.

Lemma near_hits_pos (img : server.RGBImage) (i : nat) (evs : list (nat * nat)) :
  (1 <= near_hits img i evs)%Z <->
  exists y, In (y, i) evs /\ server.is_near (server.load img i y) = true.
Proof.
  unfold near_hits. induction evs as [| [y x] evs IH]; cbn [List.filter fst snd].
  - cbn. split; [lia | intros (y & [] & _)].
  - destruct (Nat.eqb_spec x i) as [-> | Hne]; cbn [andb].
    + destruct (server.is_near (server.load img i y)) eqn:Hn.
      * split; [intros _ | cbn [length]; lia]. exists y. split; [left; reflexivity | exact Hn].
      * rewrite IH. split; intros (y' & Hin & Hy').
        -- exists y'. split; [right; exact Hin | exact Hy'].
        -- destruct Hin as [[= <-] | Hin]; [congruence |]. exists y'. auto.
    + rewrite IH. split; intros (y' & Hin & Hy').
      * exists y'. split; [right; exact Hin | exact Hy'].
      * destruct Hin as [[= <- <-] | Hin]; [congruence |]. exists y'. auto.
Qed.

Lemma near_hits_nonneg (img : server.RGBImage) (i : nat) (evs : list (nat * nat)) :
  (0 <= near_hits img i evs)%Z.
Proof. unfold near_hits. lia. Qed.

Lemma foldr_add_pos (l : list Z) :
  (forall v, In v l -> (0 <= v)%Z) ->
  (1 <= foldr Z.add 0%Z l)%Z <-> exists v, In v l /\ (1 <= v)%Z.
Proof.
  induction l as [| a l IH]; intros Hnn; cbn [foldr].
  - split; [lia | intros (v & [] & _)].
  - assert (0 <= foldr Z.add 0%Z l)%Z as Hsum.
    { clear IH. induction l as [| b l IHl]; cbn [foldr]; [lia |].
      assert (0 <= b)%Z by (apply Hnn; right; left; reflexivity).
      assert (0 <= foldr Z.add 0%Z l)%Z
        by (apply IHl; intros v [<- | Hv]; apply Hnn; [left | right; right]; auto).
      lia. }
    assert (0 <= a)%Z as Ha by (apply Hnn; left; reflexivity).
    specialize (IH (fun v Hv => Hnn v (or_intror Hv))).
    split.
    + intros Hge. destruct (Z.le_gt_cases 1 a) as [H1 | H1].
      * exists a. split; [left; reflexivity | exact H1].
      * destruct (proj1 IH ltac:(lia)) as (v & Hv & Hv1).
        exists v. split; [right; exact Hv | exact Hv1].
    + intros (v & [<- | Hv] & Hv1); [lia |].
      assert (1 <= foldr Z.add 0%Z l)%Z by (apply IH; eauto). lia.
Qed.

(** The near-centre count is at least one exactly when some sampled
    pixel of the near band (an even column of the centre third, a row
    of the band) passes the colour test of the near field. *)
Lemma near_center_blocked (img : server.RGBImage) (near_start near_end : nat) :
  let w := server.size_w img in
  (1 <= server.slice_sum (server.near_histogram img (server.range near_start near_end))
                         (w / 3) ((2 * w) / 3))%Z <->
  exists x y,
    (w / 3 <= x < (2 * w) / 3)%nat /\ In x (server.range2 w) /\
    (near_start <= y < near_end)%nat /\
    server.is_near (server.load img x y) = true.
Proof.
  intros w. unfold server.slice_sum.
  set (hist := server.near_histogram img (server.range near_start near_end)).
  assert ((2 * w) / 3 <= w)%nat as Hw by (apply Nat.Div0.div_le_upper_bound; lia).
  assert (forall v, In v (take ((2 * w) / 3 - w / 3) (drop (w / 3) hist)) <->
                    exists i, (w / 3 <= i < (2 * w) / 3)%nat /\ hist !! i = Some v)
    as Hslice.
  { intros v. rewrite <- list_elem_of_In, list_elem_of_lookup. split.
    - intros (k & Hk). apply lookup_take_Some in Hk as [Hk Hlt].
      rewrite lookup_drop in Hk. exists (w / 3 + k)%nat. split; [lia | exact Hk].
    - intros (i & Hi & Hv). exists (i - w / 3)%nat.
      apply lookup_take_Some. split; [| lia].
      rewrite lookup_drop. replace (w / 3 + (i - w / 3))%nat with i by lia. exact Hv. }
  rewrite foldr_add_pos.
  - split.
    + intros (v & Hv & Hv1). apply Hslice in Hv as (i & Hi & Hlook).
      unfold hist in Hlook. rewrite near_histogram_lookup in Hlook by (fold w; lia).
      injection Hlook as <-. apply near_hits_pos in Hv1 as (y & Hin & Hnear).
      apply in_prod_iff in Hin as [Hy Hx].
      unfold server.range in Hy. apply in_seq in Hy.
      exists i, y. repeat split; auto; lia.
    + intros (x & y & Hx & Hx2 & Hy & Hnear).
      exists (near_hits img x (list_prod (server.range near_start near_end)
                                         (server.range2 w))).
      split.
      * apply Hslice. exists x. split; [exact Hx |].
        unfold hist. apply near_histogram_lookup. fold w. lia.
      * apply near_hits_pos. exists y. split; [| exact Hnear].
        apply in_prod_iff. split; [| exact Hx2].
        unfold server.range. apply in_seq. lia.
  - intros v Hv. apply Hslice in Hv as (i & Hi & Hlook).
    unfold hist in Hlook. rewrite near_histogram_lookup in Hlook by (fold w; lia).
    injection Hlook as <-. apply near_hits_nonneg.
Qed.

(** X16.  The near-centre count of the analysis result, read on the image:
    the rows are [int(h * 0.70)] to [int(h * 0.92)], bottom excluded, and
    of the columns only the even ones of the centre third are looked at. *)
Lemma analysis_near_center (downscale : server.RGBImage -> server.RGBImage)
    (int_scale : nat -> Q -> nat) (img : server.RGBImage) :
  let img' := if (server.target_width <? server.size_w img)%nat
              then downscale img else img in
  let w := server.size_w img' in
  let h := server.size_h img' in
  (server.near_blocked_threshold
   <= server.near_center
        (server._analyze_image_for_goal_and_obstacles downscale int_scale img))%Z <->
  exists x y,
    (w / 3 <= x < (2 * w) / 3)%nat /\ Nat.even x = true /\
    (int_scale h (70 # 100) <= y < int_scale h (92 # 100))%nat /\
    server.is_near (server.load img' x y) = true.
Proof.
  intros img' w h. unfold server._analyze_image_for_goal_and_obstacles.
  fold img'. fold w. fold h.
  destruct (foldl _ _ _) as [[obstacle_hist goal_sum_x] goal_count].
  cbn [server.near_center]. unfold server.near_blocked_threshold.
  unfold w. rewrite near_center_blocked. fold w.
  assert ((2 * w) / 3 <= w)%nat as Hw by (apply Nat.Div0.div_le_upper_bound; lia).
  split; intros (x & y & Hx & Hx2 & Hy & Hnear); exists x, y;
    (split; [exact Hx |]); (split; [| split; [exact Hy | exact Hnear]]).
  - unfold server.range2 in Hx2. apply in_map_iff in Hx2 as (k & <- & _).
    rewrite Nat.even_mul. reflexivity.
  - unfold server.range2. apply in_map_iff.
    apply Nat.even_spec in Hx2 as [k ->]. exists k. split; [reflexivity |].
    apply in_seq.
    assert (k < (w + 1) / 2)%nat by (apply Nat.div_le_lower_bound; lia).
    lia.
Qed.

(** ** The push-based planner *)

(** With a free near field the marker steers: a centroid three quarters
    across the frame gives half the maximal turn, forward. *)
Example plan_goal_branch :
  server._plan_move_from_vision (fun _ _ => 0)
    (server.mkVision 320 0 0 0 (Some 240) true 0 0 0) None None None
  = Some (mkCommand ((240 - inject_Z 320 / 2) / (inject_Z 320 / 2) * 30) (1 # 2)) /\
  (240 - inject_Z 320 / 2) / (inject_Z 320 / 2) * 30 == 15.
Proof. split; [vm_compute | ]; reflexivity. Qed.



(** ** The episode loop *)

Lemma counted_sorted (prev : Z) (rs : list Z) :
  StronglySorted Z.le (prev :: rs) -> counted prev rs = sum_pos_deltas prev rs.
Proof.
  revert prev. induction rs as [| r rs IH]; intros prev Hs; cbn; [reflexivity |].
  apply StronglySorted_inv in Hs as [Hrs Hprev].
  apply Forall_inv in Hprev as Hr.
  destruct (Z.ltb_spec prev r) as [Hlt | Hge].
  - rewrite (IH r Hrs). lia.
  - assert (r = prev) as -> by lia. rewrite (IH prev Hrs). lia.
Qed.

Lemma backoff_above_sorted (bk : Command) (prev : Z) (l : list agent.TickLog) :
  StronglySorted Z.le (prev :: map agent.reading l) ->
  backoff_above bk prev l -> backoff_at_increase bk prev l.
Proof.
  revert prev. induction l as [| t l IH]; intros prev Hs; cbn; [auto |].
  intros [Hb Hrest]. split; [exact Hb |].
  apply StronglySorted_inv in Hs as [Hrs Hprev].
  apply Forall_inv in Hprev as Hr.
  apply IH; [exact Hrs |].
  replace (Z.max prev (agent.reading t)) with (agent.reading t) in Hrest by lia.
  exact Hrest.
Qed.

Section episode.
Variable Image : Type.
Variable obstacle_mask : Image -> vision.Mask.
Variable tan_deg : Q -> Q.
Variable atan2_deg : Q -> Q -> Q.
Variable cfg : agent.NavigatorConfig.
Variable goal : gmap string Q.

Local Abbreviation tick := (agent.tick Image obstacle_mask tan_deg atan2_deg cfg goal).
Local Abbreviation loop := (agent.loop Image obstacle_mask tan_deg atan2_deg cfg goal).
Local Abbreviation Obs := (agent.Obs Image).

Local Open Scope nat_scope.

Lemma tick_retry (o : Obs) (st : agent.State) :
  frame Image o = None -> tick o st = agent.Retry.
Proof.
  unfold frame, agent.tick.
  destruct (agent.img Image o), (agent.pos Image o); (discriminate || reflexivity).
Qed.

Lemma tick_frame (o : Obs) (st : agent.State) (im : Image) (p : gmap string Q) :
  frame Image o = Some (im, p) ->
  tick o st = agent.Raise \/
  (exists t,
     planner.close_to_goal p goal (agent.GOAL_RADIUS cfg) = Some false /\
     tick o st = agent.Next
                   (agent.mkState (S (agent.steps st))
                      (snd (after_reading st (agent.collisions Image o)))
                      (fst (after_reading st (agent.collisions Image o)))) t /\
     agent.reading t = agent.collisions Image o /\
     agent.backoff t
     = (if (agent.coll_prev st <? agent.collisions Image o)%Z
        then Some (back_off cfg) else None) /\
     agent.stop t = None) \/
  (exists t,
     planner.close_to_goal p goal (agent.GOAL_RADIUS cfg) = Some true /\
     tick o st = agent.Break
                   (agent.mkState (agent.steps st)
                      (snd (after_reading st (agent.collisions Image o)))
                      (fst (after_reading st (agent.collisions Image o)))) t /\
     agent.reading t = agent.collisions Image o /\
     agent.backoff t
     = (if (agent.coll_prev st <? agent.collisions Image o)%Z
        then Some (back_off cfg) else None) /\
     agent.stop t = Some stop_cmd).
Proof.
  unfold frame, agent.tick, after_reading, back_off, stop_cmd.
  destruct (agent.img Image o) as [im' |]; [| discriminate].
  destruct (agent.pos Image o) as [p' |]; [| discriminate].
  intros [= -> ->].
  destruct (vision.sample_headings _ _ _ _) as [headings |]; [| left; reflexivity].
  destruct (planner.goal_bearing_from_position _ _ _ _ _) as [gb |];
    [| left; reflexivity].
  destruct (planner.pick_heading _ _ _ _ _) as [ang sc].
  destruct (agent.coll_prev st <? agent.collisions Image o)%Z;
    destruct (planner.close_to_goal p goal (agent.GOAL_RADIUS cfg)) as [[|] |];
    cbn [fst snd];
    solve [ left; reflexivity
          | right; left; eexists; repeat split; reflexivity
          | right; right; eexists; repeat split; reflexivity ].
Qed.

(** The loop with its bookkeeping: the back-off calls, the total and
    the step counter against the log of processed ticks. *)
Lemma loop_log (env : nat -> Obs) (fuel : nat) :
  forall (i : nat) (st : agent.State) (o : agent.outcome) (l : list agent.TickLog),
    loop env fuel i st = (o, l) ->
    backoff_above (back_off cfg) (agent.coll_prev st) l /\
    forall e total steps,
      o = agent.Returned e total steps ->
      total = (agent.total_collisions st
               + counted (agent.coll_prev st) (map agent.reading l))%Z /\
      match e with
      | agent.STEP_LIMIT_EXCEEDED =>
          steps = (agent.steps st + length l)%nat /\
          (agent.MAX_STEPS cfg <= steps)%nat /\
          Forall (fun t => agent.stop t = None) l
      | agent.GOAL_REACHED =>
          (steps < agent.MAX_STEPS cfg)%nat /\
          exists l' t,
            l = l' ++ [t] /\ steps = (agent.steps st + length l')%nat /\
            agent.stop t = Some stop_cmd /\
            Forall (fun t' => agent.stop t' = None) l'
      end.
Proof.
  induction fuel as [| fuel IH]; intros i st o l; cbn [agent.loop].
  - intros [= <- <-]. split; [exact I | discriminate].
  - destruct (Nat.ltb_spec (agent.steps st) (agent.MAX_STEPS cfg)) as [Hlt | Hge].
    + destruct (frame Image (env i)) as [[im p] |] eqn:Hf.
      * destruct (tick_frame (env i) st im p Hf)
          as [-> | [(t & _ & -> & Hr & Hb & Hs) | (t & _ & -> & Hr & Hb & Hs)]].
        -- intros [= <- <-]. split; [exact I | discriminate].
        -- destruct (loop env fuel (S i) _) as [o' l'] eqn:Hloop.
           intros [= <- <-].
           destruct (IH _ _ _ _ Hloop) as [Hbk Hret]. clear IH Hloop.
           cbn [agent.coll_prev agent.total_collisions agent.steps] in Hbk, Hret.
           unfold after_reading in Hbk, Hret.
           split.
           ++ cbn [backoff_above]. rewrite Hr. split; [exact Hb |].
              destruct (Z.ltb_spec (agent.coll_prev st) (agent.collisions Image (env i)));
                cbn [snd] in Hbk.
              ** replace (Z.max _ _) with (agent.collisions Image (env i)) by lia.
                 exact Hbk.
              ** replace (Z.max _ _) with (agent.coll_prev st) by lia. exact Hbk.
           ++ intros e total steps' Ho.
              destruct (Hret e total steps' Ho) as [Htot Hsteps]. clear Hret.
              split.
              ** cbn [map counted]. rewrite Hr.
                 destruct (agent.coll_prev st <? agent.collisions Image (env i))%Z;
                   cbn [fst snd] in Htot; lia.
              ** destruct e.
                 --- destruct Hsteps as (Hm & l'' & t'' & -> & Hst & Hstop & Hall).
                     split; [exact Hm |].
                     exists (t :: l''), t''. cbn [length].
                     split; [reflexivity |]. split; [lia |].
                     split; [exact Hstop |]. constructor; assumption.
                 --- destruct Hsteps as (Hst & Hm & Hall). cbn [length].
                     split; [lia |]. split; [exact Hm |]. constructor; assumption.
        -- intros [= <- <-].
           cbn [agent.coll_prev agent.total_collisions agent.steps].
           unfold after_reading. split.
           ++ cbn [backoff_above]. rewrite Hr. split; [exact Hb | exact I].
           ++ intros e total steps' [= <- <- <-]. split.
              ** cbn [map counted]. rewrite Hr.
                 destruct (agent.coll_prev st <? agent.collisions Image (env i))%Z;
                   cbn [fst snd]; lia.
              ** split; [exact Hlt |]. exists [], t. cbn [length].
                 split; [reflexivity |]. split; [lia |].
                 split; [exact Hs | constructor].
      * rewrite (tick_retry (env i) st Hf). apply IH.
    + intros [= <- <-]. split; [exact I |].
      intros e total steps' [= <- <- <-]. cbn [map counted length].
      split; [lia |]. split; [lia |]. split; [exact Hge | constructor].
Qed.

(** An iteration without a frame leaves the state as it is and goes
    on with the next one. *)
Lemma loop_retry (env : nat -> Obs) (fuel i : nat) (st : agent.State) :
  (agent.steps st < agent.MAX_STEPS cfg)%nat ->
  frame Image (env i) = None ->
  loop env (S fuel) i st = loop env fuel (S i) st.
Proof.
  intros Hlt Hf. cbn [agent.loop].
  apply Nat.ltb_lt in Hlt. rewrite Hlt, (tick_retry _ _ Hf). reflexivity.
Qed.








Section step_limit.
Variable env : nat -> Obs.
Hypothesis goal_x : is_Some (goal !! "x"%string).
Hypothesis goal_z : is_Some (goal !! "z"%string).
Hypothesis frames_wide :
  forall i im p, frame Image (env i) = Some (im, p) ->
                 (0 < vision.width (obstacle_mask im))%nat.
Hypothesis never_close :
  forall i im p, frame Image (env i) = Some (im, p) ->
                 planner.close_to_goal p goal (agent.GOAL_RADIUS cfg) <> Some true.
Hypothesis frames_come : forall i, exists j, (i <= j)%nat /\ frame Image (env j) <> None.


End step_limit.
End episode.


(** ** Claims on [Navigator.run] *)

(** C4, as stated for every sequence of readings, fails when the
    counter goes down and up again.  With the snapshot [0] and the
    readings [2, 1, 2] the total is [2], where the positive deltas
    between consecutive readings sum to [3]; and the third tick, whose
    reading is above the one before, makes no back-off call: the loop
    compares with the last counted reading, which is still [2]. *)
Lemma run_collision_accounting_dip :
  let r := agent.run vision.Mask (fun m => m) (fun _ => 0) (fun _ _ => 0)
                     (config_with_steps 3) "NE" ∅ 0 (env_at origin [2; 1; 2]%Z) 4 in
  fst r = agent.Returned agent.STEP_LIMIT_EXCEEDED 2 3 /\
  map agent.reading (snd r) = [2; 1; 2]%Z /\
  sum_pos_deltas 0 (map agent.reading (snd r)) = 3%Z /\
  map agent.backoff (snd r) = [Some (back_off (config_with_steps 3)); None; None] /\
  ~ backoff_at_increase (back_off (config_with_steps 3)) 0 (snd r).
Proof.
  cbn zeta.
  split; [vm_compute; reflexivity |]. split; [vm_compute; reflexivity |].
  split; [vm_compute; reflexivity |]. split; [vm_compute; reflexivity |].
  set (r := agent.run _ _ _ _ _ _ _ _ _ _).
  assert (exists t1 t2 t3, snd r = [t1; t2; t3] /\
            agent.reading t2 = 1%Z /\ agent.reading t3 = 2%Z /\ agent.backoff t3 = None)
    as (t1 & t2 & t3 & -> & H2 & H3 & Hb).
  { vm_compute. eexists _, _, _. repeat split. }
  cbn [backoff_at_increase]. rewrite H2, H3, Hb. intros (_ & _ & H & _).
  discriminate H.
Qed.

(** C4.  For the readings of the collision counter across the processed
    ticks, a non-decreasing sequence that starts with the snapshot taken
    before the loop: the total that [run] returns is the sum of the
    positive deltas between consecutive readings, and the back-off call
    [move_rel(0, -0.6 * STEP_DIST)] is made exactly in the ticks whose
    reading is above the reading before. *)
Theorem run_collision_accounting (Image : Type) (obstacle_mask : Image -> vision.Mask)
    (tan_deg : Q -> Q) (atan2_deg : Q -> Q -> Q) (cfg : agent.NavigatorConfig)
    (corner : string) (resp : gmap string (gmap string Q)) (c0 : Z)
    (env : nat -> agent.Obs Image) (fuel : nat)
    (o : agent.outcome) (log : list agent.TickLog) :
  agent.run Image obstacle_mask tan_deg atan2_deg cfg corner resp c0 env fuel = (o, log) ->
  StronglySorted Z.le (c0 :: map agent.reading log) ->
  backoff_at_increase (back_off cfg) c0 log /\
  turn (back_off cfg) = 0 /\
  distance (back_off cfg) == - (6 # 10) * agent.STEP_DIST cfg /\
  forall e total steps,
    o = agent.Returned e total steps ->
    total = sum_pos_deltas c0 (map agent.reading log).
Proof.
  unfold agent.run. intros Hrun Hsorted.
  split; [| split; [reflexivity | split; [cbn; ring |]]].
  - destruct (agent.set_goal corner resp) as [goal |].
    + apply loop_log in Hrun as [Hbk _].
      apply backoff_above_sorted; assumption.
    + injection Hrun as <- <-. exact I.
  - intros e total steps ->.
    destruct (agent.set_goal corner resp) as [goal |]; [| discriminate].
    apply loop_log in Hrun as [_ Hret].
    destruct (Hret _ _ _ eq_refl) as [-> _]. cbn [agent.total_collisions agent.coll_prev].
    rewrite counted_sorted by exact Hsorted. lia.
Qed.

Lemma run_collision_accounting_witness :
  StronglySorted Z.le (0%Z :: map agent.reading (snd six_ticks)) /\
  map agent.reading (snd six_ticks) = [0; 0; 1; 1; 3; 3]%Z /\
  fst six_ticks = agent.Returned agent.STEP_LIMIT_EXCEEDED 3 6 /\
  sum_pos_deltas 0 (map agent.reading (snd six_ticks)) = 3%Z /\
  backoff_at_increase (back_off (config_with_steps 6)) 0 (snd six_ticks) /\
  map agent.backoff (snd six_ticks)
  = [None; None; Some (back_off (config_with_steps 6)); None;
     Some (back_off (config_with_steps 6)); None].
Proof.
  assert (StronglySorted Z.le (0%Z :: map agent.reading (snd six_ticks))) as Hsorted.
  { vm_compute. repeat constructor; discriminate. }
  assert (six_ticks = (fst six_ticks, snd six_ticks)) as Hrun
    by (destruct six_ticks; reflexivity).
  destruct (run_collision_accounting _ _ _ _ _ _ _ _ _ _ _ _ Hrun Hsorted)
    as (Hbk & _ & _ & _).
  split; [exact Hsorted |].
  split; [vm_compute; reflexivity |].
  split; [vm_compute; reflexivity |].
  split; [vm_compute; reflexivity |].
  split; [exact Hbk | vm_compute; reflexivity].
Defined.

(** C6, as stated, fails: when the first frame is taken at the goal the
    loop leaves by [break] with [steps = 0], after one processed tick. *)
Lemma run_starts_at_goal_zero_steps :
  fst starts_at_goal = agent.Returned agent.GOAL_REACHED 0 0 /\
  map agent.commands (snd starts_at_goal)
  = [[mkCommand (0 # 240) 4; mkCommand 0 0]] /\
  ~ exit_tick_counted starts_at_goal.
Proof.
  split; [vm_compute; reflexivity |].
  split; [vm_compute; reflexivity |].
  intros H. specialize (H 0%Z 0%nat). vm_compute in H.
  specialize (H eq_refl). discriminate.
Qed.

(** C6, as amended.  The loop checks goal proximity before it
    increments the step counter: when [run] leaves by the goal exit, the
    steps returned count the processed ticks before the one on which
    the goal was reached, that tick is not counted, and its last call is
    the stop command [move_rel(0, 0)], which no earlier tick issues.
    When [run] leaves by the step limit every processed tick is counted. *)
Theorem run_goal_exit_steps (Image : Type) (obstacle_mask : Image -> vision.Mask)
    (tan_deg : Q -> Q) (atan2_deg : Q -> Q -> Q) (cfg : agent.NavigatorConfig)
    (corner : string) (resp : gmap string (gmap string Q)) (c0 : Z)
    (env : nat -> agent.Obs Image) (fuel : nat)
    (e : agent.exit) (total : Z) (steps : nat) (log : list agent.TickLog) :
  agent.run Image obstacle_mask tan_deg atan2_deg cfg corner resp c0 env fuel
  = (agent.Returned e total steps, log) ->
  match e with
  | agent.GOAL_REACHED =>
      exists log' t,
        log = log' ++ [t] /\ steps = length log' /\ S steps = length log /\
        agent.commands t
        = agent.planned t :: option_list (agent.backoff t) ++ [mkCommand 0 0] /\
        Forall (fun t' => agent.stop t' = None) log'
  | agent.STEP_LIMIT_EXCEEDED =>
      steps = length log /\ Forall (fun t' => agent.stop t' = None) log
  end.
Proof.
  unfold agent.run.
  destruct (agent.set_goal corner resp) as [goal |]; [| discriminate].
  intros Hrun. apply loop_log in Hrun as [_ Hret].
  destruct (Hret _ _ _ eq_refl) as [_ Hsteps]. cbn [agent.steps] in Hsteps.
  destruct e.
  - destruct Hsteps as (_ & log' & t & -> & -> & Hstop & Hall).
    exists log', t. rewrite length_app. cbn [length Nat.add].
    split; [reflexivity |]. split; [reflexivity |]. split; [lia |].
    split; [| exact Hall].
    unfold agent.commands. rewrite Hstop. reflexivity.
  - destruct Hsteps as (-> & _ & Hall). split; [reflexivity | exact Hall].
Qed.

Lemma run_goal_exit_steps_witness :
  starts_at_goal
  = (agent.Returned agent.GOAL_REACHED 0 0, snd starts_at_goal) /\
  exists log' t,
    snd starts_at_goal = log' ++ [t] /\ 0%nat = length log' /\
    agent.commands t
    = agent.planned t :: option_list (agent.backoff t) ++ [mkCommand 0 0].
Proof.
  assert (starts_at_goal
          = (agent.Returned agent.GOAL_REACHED 0 0, snd starts_at_goal)) as Hrun
    by (vm_compute; reflexivity).
  split; [exact Hrun |].
  destruct (run_goal_exit_steps _ _ _ _ _ _ _ _ _ _ _ _ _ _ Hrun)
    as (log' & t & Hlog & Hsteps & _ & Hcmds & _).
  exists log', t. repeat split; assumption.
Defined.




(** ** More on the heading sampler *)

Lemma sample_headings_angles (tan_deg : Q -> Q) (mask : vision.Mask) (num : nat)
    (fov : Q) (l : list planner.heading) :
  vision.sample_headings tan_deg mask num fov = Some l ->
  map fst l = vision.linspace (- fov / 2) (fov / 2) num.
Proof.
  unfold vision.sample_headings.
  generalize (vision.linspace (- fov / 2) (fov / 2) num). intros angles.
  revert l. induction angles as [| a angles IH]; intros l; cbn [mapM].
  - intros [= <-]. reflexivity.
  - destruct (vision.band_column mask _) as [vals |]; [| discriminate].
    cbn. destruct (mapM _ angles) as [l' |] eqn:E; [| discriminate].
    cbn. intros [= <-]. cbn [map fst]. rewrite (IH l' eq_refl). reflexivity.
Qed.

(** X6.  [sample_headings] raises exactly on a mask of width zero with
    at least one heading asked for (the clamped column is [-1], out of
    bounds); with no heading asked for it returns the empty field. *)
Theorem sample_headings_raises (tan_deg : Q -> Q) (mask : vision.Mask) (num : nat)
    (fov : Q) :
  (vision.sample_headings tan_deg mask num fov = None <->
   vision.width mask = 0%nat /\ (1 <= num)%nat) /\
  vision.sample_headings tan_deg mask 0%nat fov = Some [].
Proof.
  split; [| reflexivity].
  destruct (Nat.eq_dec (vision.width mask) 0%nat) as [Hw | Hw].
  - split.
    + intros Hnone. split; [exact Hw |].
      destruct num; [discriminate | lia].
    + intros [_ Hnum]. unfold vision.sample_headings.
      pose proof (linspace_length (- fov / 2) (fov / 2) num) as Hlen.
      destruct (vision.linspace (- fov / 2) (fov / 2) num) as [| a angles];
        [cbn in Hlen; lia |].
      cbn [mapM]. unfold vision.band_column, vision.column, vision.clip.
      rewrite Hw. cbn [Z.of_nat].
      replace (Z.min (Z.max _ 0) (0 - 1)) with (-1)%Z by lia.
      reflexivity.
  - rewrite sample_headings_total by lia. split; [discriminate | lia].
Qed.

Lemma Qtrunc_monotone (x y : Q) : x <= y -> (vision.Qtrunc x <= vision.Qtrunc y)%Z.
Proof.
  intros Hxy. unfold vision.Qtrunc.
  destruct (Qltb x 0) eqn:Hx, (Qltb y 0) eqn:Hy.
  - apply Qceiling_resp_le. exact Hxy.
  - apply Qltb_lt in Hx. apply Qltb_ge in Hy.
    assert (Qceiling x <= 0)%Z
      by (change 0%Z with (Qceiling 0); apply Qceiling_resp_le; lra).
    assert (0 <= Qfloor y)%Z
      by (change 0%Z with (Qfloor 0); apply Qfloor_resp_le; exact Hy).
    lia.
  - apply Qltb_ge in Hx. apply Qltb_lt in Hy. lra.
  - apply Qfloor_resp_le. exact Hxy.
Qed.

(** X9.  The projection keeps the order of the headings: of two angles
    the one with the larger tangent, which below 90 degrees is the
    larger angle, never projects to a column further left, truncation
    and clamping included. *)
Theorem column_monotone (tan_deg : Q -> Q) (w : nat) (a b : Q) :
  tan_deg a <= tan_deg b ->
  (vision.column tan_deg w a <= vision.column tan_deg w b)%Z.
Proof.
  intros Htan. unfold vision.column, vision.clip.
  assert (vision.Qtrunc (inject_Z (Z.of_nat (w / 2))
                         + tan_deg a * ((3 # 10) * inject_Z (Z.of_nat w)))
          <= vision.Qtrunc (inject_Z (Z.of_nat (w / 2))
                            + tan_deg b * ((3 # 10) * inject_Z (Z.of_nat w))))%Z as H.
  { apply Qtrunc_monotone.
    assert (0 <= (3 # 10) * inject_Z (Z.of_nat w)) as Hs.
    { apply Qmult_le_0_compat; [discriminate |].
      change 0 with (inject_Z 0). rewrite <- Zle_Qle. lia. }
    pose proof (Qmult_le_compat_r _ _ _ Htan Hs). lra. }
  lia.
Qed.

Lemma column_monotone_witness :
  (tan_linear (-60) <= tan_linear 40) /\
  (vision.column tan_linear 640 (-60)%Q <= vision.column tan_linear 640 40%Q)%Z.
Proof.
  assert (tan_linear (-60) <= tan_linear 40) as H by discriminate.
  split; [exact H |].
  exact (column_monotone tan_linear 640 (-60) 40 H).
Defined.

(** ** More on the push-based planner *)

Lemma clamp_turn_bounds (t : Q) :
  - server.max_turn_deg <= server.clamp_turn t /\
  server.clamp_turn t <= server.max_turn_deg.
Proof.
  unfold server.clamp_turn, server.max_turn_deg. split.
  - apply Q.le_max_l.
  - apply Q.max_lub; [discriminate | apply Q.le_min_l].
Qed.

(** X10.  Whatever the analysis, the heading, the pose and the goal, a
    command of [_plan_move_from_vision] turns by at most [max_turn_deg]
    either way and its distance is [0.0] or [forward_step]: the planner
    never backs up and never steps further than half a unit. *)
Theorem plan_command_bounds (atan2_deg : Q -> Q -> Q) (v : server.Vision)
    (heading : option Q) (rpos gpos : option (gmap string Q)) (cmd : Command) :
  server._plan_move_from_vision atan2_deg v heading rpos gpos = Some cmd ->
  (- server.max_turn_deg <= turn cmd /\ turn cmd <= server.max_turn_deg) /\
  (distance cmd = 0 \/ distance cmd = server.forward_step).
Proof.
  unfold server._plan_move_from_vision.
  assert (- server.max_turn_deg <= - server.max_turn_deg <= server.max_turn_deg) as Hneg
    by (split; discriminate).
  assert (- server.max_turn_deg <= server.max_turn_deg <= server.max_turn_deg) as Hpos
    by (split; discriminate).
  assert (- server.max_turn_deg <= 0 <= server.max_turn_deg) as Hzero
    by (split; discriminate).
  repeat match goal with
         | |- context [if ?b then _ else _] => destruct b
         | |- context [match ?o with Some _ => _ | None => _ end] => destruct o
         end;
    intros [= <-]; cbn [turn distance];
    (split; [first [exact Hneg | exact Hpos | exact Hzero | apply clamp_turn_bounds]
            | first [left; reflexivity | right; reflexivity]]).
Qed.

Lemma plan_command_bounds_witness :
  server._plan_move_from_vision (fun _ _ => 0) blocked_right None None None
  = Some (mkCommand (- 30) 0) /\
  (- server.max_turn_deg <= - 30 /\ - 30 <= server.max_turn_deg).
Proof.
  assert (server._plan_move_from_vision (fun _ _ => 0) blocked_right None None None
          = Some (mkCommand (- 30) 0)) as H by reflexivity.
  split; [exact H |].
  exact (proj1 (plan_command_bounds _ _ _ _ _ _ H)).
Defined.

(** X11.  [_plan_move_from_vision] never answers with the null command:
    a command that does not move forward turns in place by more than
    the dead band of five degrees. *)
Theorem plan_never_idle (atan2_deg : Q -> Q -> Q) (v : server.Vision)
    (heading : option Q) (rpos gpos : option (gmap string Q)) (cmd : Command) :
  server._plan_move_from_vision atan2_deg v heading rpos gpos = Some cmd ->
  distance cmd = server.forward_step \/ (distance cmd = 0 /\ 5 < Qabs (turn cmd)).
Proof.
  unfold server._plan_move_from_vision.
  repeat match goal with
         | |- context [if Qltb ?a ?b then _ else _] =>
             let E := fresh "E" in destruct (Qltb a b) eqn:E; [apply Qltb_lt in E |]
         | |- context [if ?b then _ else _] => destruct b
         | |- context [match ?o with Some _ => _ | None => _ end] => destruct o
         end;
    intros [= <-]; cbn [turn distance];
    first [ left; reflexivity
          | right; split; [reflexivity | first [exact E | reflexivity]] ].
Qed.

Lemma plan_never_idle_witness :
  server._plan_move_from_vision (fun _ _ => 0) blocked_right None None None
  = Some (mkCommand (- 30) 0) /\
  (distance (mkCommand (- 30) 0) = server.forward_step \/
   (distance (mkCommand (- 30) 0) = 0 /\ 5 < Qabs (turn (mkCommand (- 30) 0)))).
Proof.
  assert (server._plan_move_from_vision (fun _ _ => 0) blocked_right None None None
          = Some (mkCommand (- 30) 0)) as H by reflexivity.
  split; [exact H |].
  exact (plan_never_idle _ _ _ _ _ _ H).
Defined.

(** ** More on the image analysis *)

(** The accumulators of the mid band stay within the image: the count
    of marker pixels is not negative and the sum of their columns lies
    between zero and the count times the last column. *)
Lemma mid_events_bounds (img : server.RGBImage) (w : nat) (evs : list (nat * nat)) :
  (forall e, In e evs -> (snd e < w)%nat) ->
  forall (hist : list Z) (gs gc : Z),
    (0 <= gc)%Z -> (0 <= gs)%Z -> (gs <= (Z.of_nat w - 1) * gc)%Z ->
    let r := foldl (fun acc e => server.mid_step img (fst e) acc (snd e)) (hist, gs, gc) evs in
    (0 <= snd r)%Z /\ (0 <= snd (fst r))%Z /\ (snd (fst r) <= (Z.of_nat w - 1) * snd r)%Z.
Proof.
  induction evs as [| [y x] evs IH]; intros Hx hist gs gc Hgc Hgs Hle; cbn [foldl].
  - cbn. auto.
  - assert (x < w)%nat as Hxw by (apply (Hx (y, x)); left; reflexivity).
    assert (forall e, In e evs -> (snd e < w)%nat) as Hx'
      by (intros e He; apply Hx; right; exact He).
    cbn [fst snd].
    assert (exists h', server.mid_step img y (hist, gs, gc) x
                       = (h', if server.is_goal (server.load img x y)
                              then (gs + Z.of_nat x)%Z else gs,
                              if server.is_goal (server.load img x y)
                              then (gc + 1)%Z else gc)) as [h' ->]
      by (unfold server.mid_step; destruct (server.is_goal _); eexists; reflexivity).
    destruct (server.is_goal (server.load img x y)).
    + apply (IH Hx'); nia.
    + apply (IH Hx'); assumption.
Qed.

Lemma range2_bound (w x : nat) : In x (server.range2 w) -> (x < w)%nat.
Proof.
  unfold server.range2. intros Hin. apply in_map_iff in Hin as (k & <- & Hk).
  apply in_seq in Hk.
  assert (2 * ((w + 1) / 2) <= w + 1)%nat by (apply Nat.Div0.mul_div_le).
  lia.
Qed.

Lemma analysis_centroid_facts (downscale : server.RGBImage -> server.RGBImage)
    (int_scale : nat -> Q -> nat) (img : server.RGBImage) (c : Q) :
  let v := server._analyze_image_for_goal_and_obstacles downscale int_scale img in
  server.goal_centroid v = Some c ->
  server.goal_visible v = true /\ (0 < server.v_width v)%Z /\
  0 <= c /\ c <= inject_Z (server.v_width v) - 1.
Proof.
  unfold server._analyze_image_for_goal_and_obstacles.
  set (img' := if (server.target_width <? server.size_w img)%nat then downscale img else img).
  set (w := server.size_w img').
  rewrite (foldl_list_prod (server.mid_step img')).
  assert (forall e, In e (list_prod
                            (server.range (int_scale (server.size_h img') (45 # 100))
                                          (int_scale (server.size_h img') (70 # 100)))
                            (server.range2 w)) -> (snd e < w)%nat) as Hcols.
  { intros [y x] He. apply List.in_prod_iff in He. apply range2_bound, He. }
  pose proof (mid_events_bounds img' w _ Hcols (replicate w 0%Z) 0%Z 0%Z
                ltac:(lia) ltac:(lia) ltac:(lia)) as Hb.
  cbv zeta in Hb.
  destruct (foldl _ _ _) as [[hist gs] gc].
  cbn [server.goal_centroid server.goal_visible server.v_width].
  destruct (Z.ltb_spec 0 gc) as [Hgc | Hgc]; [| discriminate].
  intros [= <-].
  destruct Hb as (_ & Hgs & Hle). cbn [fst snd] in Hgs, Hle.
  assert (0 < Z.of_nat w)%Z as Hw by nia.
  assert (0 < inject_Z gc) as Hqc by (change 0 with (inject_Z 0); rewrite <- Zlt_Qlt; lia).
  split; [reflexivity |]. split; [exact Hw |]. split.
  - apply Qle_shift_div_l; [exact Hqc |]. rewrite Qmult_0_l.
    change 0 with (inject_Z 0). rewrite <- Zle_Qle. exact Hgs.
  - apply Qle_shift_div_r; [exact Hqc |].
    assert (inject_Z gs <= inject_Z ((Z.of_nat w - 1) * gc)) as Hq
      by (rewrite <- Zle_Qle; exact Hle).
    rewrite inject_Z_mult in Hq. unfold Z.sub in Hq.
    rewrite inject_Z_plus, inject_Z_opp in Hq. change (inject_Z 1) with 1 in Hq.
    lra.
Qed.

(** X13.  The marker centroid of the analysis, when there is one, is a
    column of the analysed image, between [0] and [width - 1]; its
    normalised offset from the centre then lies in [-1, 1), as the
    comment of the planner expects, and the marker is reported visible. *)
Theorem analysis_goal_centroid (downscale : server.RGBImage -> server.RGBImage)
    (int_scale : nat -> Q -> nat) (img : server.RGBImage) (c : Q) :
  let v := server._analyze_image_for_goal_and_obstacles downscale int_scale img in
  server.goal_centroid v = Some c ->
  server.goal_visible v = true /\ (0 < server.v_width v)%Z /\
  0 <= c /\ c <= inject_Z (server.v_width v) - 1 /\
  - 1 <= (c - inject_Z (server.v_width v) / 2) / (inject_Z (server.v_width v) / 2) /\
  (c - inject_Z (server.v_width v) / 2) / (inject_Z (server.v_width v) / 2) < 1.
Proof.
  intros v Hc.
  destruct (analysis_centroid_facts downscale int_scale img c Hc) as (Hv & Hw & Hc0 & Hc1).
  fold v in Hv, Hw, Hc0, Hc1.
  split; [exact Hv |]. split; [exact Hw |]. split; [exact Hc0 |]. split; [exact Hc1 |].
  set (wq := inject_Z (server.v_width v)) in *.
  assert (0 < wq) as Hqw by (unfold wq; change 0 with (inject_Z 0); rewrite <- Zlt_Qlt; lia).
  assert (0 < wq / 2) as Hhalf by (apply Qlt_shift_div_l; [reflexivity | lra]).
  assert (wq == 2 * (wq / 2)) as Hw2 by field.
  split.
  - apply Qle_shift_div_l; [exact Hhalf | lra].
  - apply Qlt_shift_div_r; [exact Hhalf | lra].
Qed.

Lemma analysis_goal_centroid_witness :
  let v := server._analyze_image_for_goal_and_obstacles (fun i => i) int_floor
             marker_image in
  server.goal_centroid v = Some (10 # 5) /\
  server.goal_visible v = true /\ (0 < server.v_width v)%Z /\
  0 <= 10 # 5 /\ 10 # 5 <= inject_Z (server.v_width v) - 1 /\
  - 1 <= ((10 # 5) - inject_Z (server.v_width v) / 2) / (inject_Z (server.v_width v) / 2) /\
  ((10 # 5) - inject_Z (server.v_width v) / 2) / (inject_Z (server.v_width v) / 2) < 1.
Proof.
  intros v.
  assert (server.goal_centroid v = Some (10 # 5)) as H by (vm_compute; reflexivity).
  split; [exact H |].
  exact (analysis_goal_centroid (fun i => i) int_floor marker_image (10 # 5) H).
Defined.

(** ** More on the image analysis: the thirds *)

Lemma foldr_add_app (l1 l2 : list Z) :
  foldr Z.add 0%Z (l1 ++ l2) = (foldr Z.add 0%Z l1 + foldr Z.add 0%Z l2)%Z.
Proof. induction l1 as [| a l1 IH]; cbn [foldr app]; [reflexivity | rewrite IH; lia]. Qed.

Lemma slice_sum_thirds (hist : list Z) (a b : nat) :
  (a <= b)%nat -> (b <= length hist)%nat ->
  (server.slice_sum hist 0 a + server.slice_sum hist a b
   + server.slice_sum hist b (length hist))%Z
  = foldr Z.add 0%Z hist.
Proof.
  intros Hab Hb. unfold server.slice_sum.
  rewrite Nat.sub_0_r, drop_0.
  rewrite (take_ge (drop b hist)) by (rewrite length_drop; lia).
  rewrite <- (take_drop a hist) at 4. rewrite foldr_add_app.
  rewrite <- (take_drop (b - a) (drop a hist)) at 2. rewrite foldr_add_app.
  rewrite drop_drop. replace (a + (b - a))%nat with b by lia. lia.
Qed.

Lemma bump_sum (x : nat) (hist : list Z) :
  (x < length hist)%nat ->
  foldr Z.add 0%Z (server.bump x hist) = (foldr Z.add 0%Z hist + 1)%Z.
Proof.
  unfold server.bump. revert x.
  induction hist as [| a hist IH]; intros x Hx; cbn [length] in Hx; [lia |].
  destruct x as [| x]; cbn [alter list_alter foldr].
  - lia.
  - change (list_alter (Z.add 1) x hist) with (alter (Z.add 1) x hist).
    rewrite IH by lia. lia.
Qed.

Lemma hist_step_length (img : server.RGBImage) (test : Z * Z * Z -> bool)
    (evs : list (nat * nat)) (hist : list Z) :
  length (foldl (hist_step img test) hist evs) = length hist.
Proof.
  revert hist. induction evs as [| e evs IH]; intros hist; cbn [foldl]; [reflexivity |].
  rewrite IH. unfold hist_step, server.bump.
  destruct (test _); [apply length_alter | reflexivity].
Qed.

Lemma hist_step_sum (img : server.RGBImage) (test : Z * Z * Z -> bool)
    (evs : list (nat * nat)) (hist : list Z) :
  (forall e, In e evs -> (snd e < length hist)%nat) ->
  foldr Z.add 0%Z (foldl (hist_step img test) hist evs)
  = (foldr Z.add 0%Z hist
     + Z.of_nat (length (List.filter
                           (fun e => test (server.load img (snd e) (fst e))) evs)))%Z.
Proof.
  revert hist. induction evs as [| e evs IH]; intros hist Hx; cbn [foldl List.filter].
  - cbn. lia.
  - assert (snd e < length hist)%nat as He by (apply Hx; left; reflexivity).
    unfold hist_step at 2.
    destruct (test (server.load img (snd e) (fst e))).
    + rewrite IH.
      * rewrite bump_sum by exact He. cbn [length]. lia.
      * intros e' He'. unfold server.bump. rewrite length_alter. apply Hx. right. exact He'.
    + apply IH. intros e' He'. apply Hx. right. exact He'.
Qed.

Lemma mid_step_hist (img : server.RGBImage) (evs : list (nat * nat))
    (hist : list Z) (gs gc : Z) :
  fst (fst (foldl (fun acc e => server.mid_step img (fst e) acc (snd e)) (hist, gs, gc) evs))
  = foldl (hist_step img server.is_obstacle) hist evs.
Proof.
  revert hist gs gc. induction evs as [| [y x] evs IH]; intros hist gs gc; cbn [foldl];
    [reflexivity |].
  cbn [fst snd]. unfold server.mid_step at 2, hist_step at 2. cbn [fst snd].
  destruct (server.is_goal (server.load img x y)); apply IH.
Qed.

Lemma near_step_hist (img : server.RGBImage) (evs : list (nat * nat)) (hist : list Z) :
  foldl (fun acc e => server.near_step img (fst e) acc (snd e)) hist evs
  = foldl (hist_step img server.is_near) hist evs.
Proof. reflexivity. Qed.

Lemma replicate_zero_sum (n : nat) : foldr Z.add 0%Z (replicate n 0%Z) = 0%Z.
Proof. induction n as [| n IH]; cbn [replicate foldr]; [reflexivity | rewrite IH; reflexivity]. Qed.

Lemma thirds_order (w : nat) : (w / 3 <= (2 * w) / 3)%nat /\ ((2 * w) / 3 <= w)%nat.
Proof.
  split.
  - apply Nat.Div0.div_le_mono. lia.
  - apply Nat.Div0.div_le_upper_bound. lia.
Qed.

(** X17.  The three thirds partition the sampled pixels: the near
    counts of the three thirds add up to the number of sampled pixels of
    the near band that pass the near colour test, and the obstacle
    densities to the number of sampled pixels of the mid band that pass
    the obstacle test; no hit is lost at the boundaries of the thirds
    or counted twice. *)
Theorem analysis_thirds_partition (downscale : server.RGBImage -> server.RGBImage)
    (int_scale : nat -> Q -> nat) (img : server.RGBImage) :
  let img' := if (server.target_width <? server.size_w img)%nat
              then downscale img else img in
  let h := server.size_h img' in
  let v := server._analyze_image_for_goal_and_obstacles downscale int_scale img in
  (server.near_left v + server.near_center v + server.near_right v)%Z
  = Z.of_nat (sampled img' server.is_near (int_scale h (70 # 100)) (int_scale h (92 # 100))) /\
  (server.left_density v + server.center_density v + server.right_density v)%Z
  = Z.of_nat (sampled img' server.is_obstacle
                      (int_scale h (45 # 100)) (int_scale h (70 # 100))).
Proof.
  intros img' h v. unfold v, server._analyze_image_for_goal_and_obstacles.
  fold img'. fold h. set (w := server.size_w img').
  rewrite (foldl_list_prod (server.mid_step img')).
  pose proof (mid_step_hist img'
                (list_prod (server.range (int_scale h (45 # 100)) (int_scale h (70 # 100)))
                           (server.range2 w))
                (replicate w 0%Z) 0%Z 0%Z) as Hmid.
  destruct (foldl _ _ _) as [[obstacle_hist gs] gc]. cbn [fst] in Hmid.
  cbn [server.near_left server.near_center server.near_right
       server.left_density server.center_density server.right_density].
  destruct (thirds_order w) as [H1 H2].
  assert (forall y0 y1 e,
            In e (list_prod (server.range y0 y1) (server.range2 w)) ->
            (snd e < length (replicate w 0%Z))%nat) as Hcols.
  { intros y0 y1 [y x] He. apply List.in_prod_iff in He.
    rewrite length_replicate. apply range2_bound, He. }
  split.
  - pose proof (near_histogram_length img'
                  (server.range (int_scale h (70 # 100)) (int_scale h (92 # 100)))) as Hlen.
    fold w in Hlen.
    pose proof (slice_sum_thirds _ (w / 3) ((2 * w) / 3) H1
                  ltac:(rewrite Hlen; exact H2)) as Hs.
    rewrite Hlen in Hs. rewrite Hs. clear Hs Hlen.
    unfold server.near_histogram. fold w.
    rewrite (foldl_list_prod (server.near_step img')), near_step_hist.
    rewrite hist_step_sum by (apply Hcols).
    rewrite replicate_zero_sum. reflexivity.
  - assert (length obstacle_hist = w) as Hlen
      by (rewrite Hmid, hist_step_length; apply length_replicate).
    pose proof (slice_sum_thirds obstacle_hist (w / 3) ((2 * w) / 3) H1
                  ltac:(rewrite Hlen; exact H2)) as Hs.
    rewrite Hlen in Hs. rewrite Hs. clear Hs Hlen.
    rewrite Hmid, hist_step_sum by (apply Hcols).
    rewrite replicate_zero_sum. reflexivity.
Qed.

(** ** More on the corner table *)

Lemma upper_ascii_idempotent (a : ascii) :
  server.upper_ascii (server.upper_ascii a) = server.upper_ascii a.
Proof.
  destruct a as [[] [] [] [] [] [] [] []]; vm_compute; reflexivity.
Qed.

Lemma upper_idempotent (s : string) : server.upper (server.upper s) = server.upper s.
Proof.
  induction s as [| a s IH]; cbn [server.upper]; [reflexivity |].
  rewrite upper_ascii_idempotent, IH. reflexivity.
Qed.

Lemma corner_to_coords_shape (corner : string) (margin : Z) :
  exists x z : Z,
    server.corner_to_coords corner margin
    = {[ "x"%string := x; "y"%string := 0%Z; "z"%string := z ]} /\
    (x = (server.FLOOR_HALF - margin)%Z \/ x = (- (server.FLOOR_HALF - margin))%Z) /\
    (z = (server.FLOOR_HALF - margin)%Z \/ z = (- (server.FLOOR_HALF - margin))%Z).
Proof.
  unfold server.corner_to_coords. cbv zeta.
  destruct (server.contains "E" _), (server.contains "S" _ || server.contains "B" _),
    (server.one_of _ ["NE"; "EN"; "TR"]%string), (server.one_of _ ["NW"; "WN"; "TL"]%string),
    (server.one_of _ ["SE"; "ES"; "BR"]%string), (server.one_of _ ["SW"; "WS"; "BL"]%string);
    eexists _, _; (split; [reflexivity | split; auto]).
Qed.

(** X18.  [corner_to_coords] accepts every string: the answer always has
    exactly the keys [x], [y] and [z], with [y = 0] and [x] and [z] each
    [FLOOR_HALF - margin] or its opposite, so the goal is a corner of
    the square at that margin whatever the name; and the name is read
    without regard to case. *)
Theorem corner_to_coords_corner (corner : string) (margin : Z) :
  let d := server.corner_to_coords corner margin in
  (exists x z : Z,
     d !! "x"%string = Some x /\ d !! "y"%string = Some 0%Z /\ d !! "z"%string = Some z /\
     Z.abs x = Z.abs (server.FLOOR_HALF - margin) /\
     Z.abs z = Z.abs (server.FLOOR_HALF - margin)) /\
  (forall k, is_Some (d !! k) <-> k = "x"%string \/ k = "y"%string \/ k = "z"%string) /\
  server.corner_to_coords (server.upper corner) margin = d.
Proof.
  intros d. subst d.
  assert (server.corner_to_coords (server.upper corner) margin
          = server.corner_to_coords corner margin) as ->
    by (unfold server.corner_to_coords; rewrite upper_idempotent; reflexivity).
  destruct (corner_to_coords_shape corner margin) as (x & z & E & Hx & Hz).
  rewrite E. clear E.
  split; [| split].
  - exists x, z. repeat split; try reflexivity; lia.
  - intros k.
    destruct (decide (k = "x"%string)) as [-> | Hkx];
      [split; [auto | intros _; eexists; reflexivity] |].
    destruct (decide (k = "y"%string)) as [-> | Hky];
      [split; [auto | intros _; eexists; reflexivity] |].
    destruct (decide (k = "z"%string)) as [-> | Hkz];
      [split; [auto | intros _; eexists; reflexivity] |].
    rewrite !lookup_insert_ne, lookup_singleton_ne by congruence.
    split; [intros [? [=]] | intros [? | [? | ?]]; congruence].
  - reflexivity.
Qed.

(** ** More on the navigator *)

Lemma fallback_goal_corner (corner : string) :
  exists x z : Z,
    agent.fallback_goal corner
    = Some {[ "x"%string := x; "y"%string := 0%Z; "z"%string := z ]} /\
    (x = 45 \/ x = -45)%Z /\ (z = 45 \/ z = -45)%Z /\
    (agent.mapping !! corner = None -> x = 45%Z /\ z = 45%Z).
Proof.
  unfold agent.fallback_goal.
  destruct (agent.mapping !! corner) as [alias |] eqn:E.
  - unfold agent.mapping in E.
    repeat (apply lookup_insert_Some in E as [[_ <-] | [_ E]];
            [eexists _, _; split; [vm_compute; reflexivity |];
             split; [auto |]; split; [auto | discriminate] |]).
    apply lookup_singleton_Some in E as [_ <-].
    eexists _, _; split; [vm_compute; reflexivity |].
    split; [auto |]; split; [auto | discriminate].
  - exists 45%Z, 45%Z. split; [vm_compute; reflexivity |]. auto.
Qed.

(** X19.  The fallback of [Navigator.set_goal] never fails: when the
    answer of the server carries neither a goal nor a position, every
    corner string, known or not, gives a goal with [y = 0] and [x] and
    [z] each [45] or [-45]; a name outside the table is read as [NE]
    and gives [(45, 0, 45)]. *)
Theorem set_goal_fallback_total (corner : string) (resp : gmap string (gmap string Q)) :
  agent.or_dict (resp !! "goal"%string) (resp !! "position"%string) = None ->
  exists x z : Q,
    agent.set_goal corner resp
    = Some {[ "x"%string := x; "y"%string := 0; "z"%string := z ]} /\
    (x = 45 \/ x = - (45)) /\ (z = 45 \/ z = - (45)) /\
    (agent.mapping !! corner = None -> x = 45 /\ z = 45).
Proof.
  intros Hresp. unfold agent.set_goal. rewrite Hresp.
  destruct (fallback_goal_corner corner) as (x & z & -> & Hx & Hz & Hnone).
  exists (inject_Z x), (inject_Z z).
  split; [| split; [| split]].
  - destruct Hx as [-> | ->], Hz as [-> | ->]; vm_compute; reflexivity.
  - destruct Hx as [-> | ->]; [left | right]; reflexivity.
  - destruct Hz as [-> | ->]; [left | right]; reflexivity.
  - intros Hm. destruct (Hnone Hm) as [-> ->]. split; reflexivity.
Qed.

Lemma set_goal_fallback_total_witness :
  agent.or_dict ((∅ : gmap string (gmap string Q)) !! "goal"%string)
                ((∅ : gmap string (gmap string Q)) !! "position"%string) = None /\
  exists x z : Q,
    agent.set_goal "centre" ∅
    = Some {[ "x"%string := x; "y"%string := 0; "z"%string := z ]} /\
    (x = 45 \/ x = - (45)) /\ (z = 45 \/ z = - (45)) /\
    (agent.mapping !! "centre"%string = None -> x = 45 /\ z = 45).
Proof.
  assert (agent.or_dict ((∅ : gmap string (gmap string Q)) !! "goal"%string)
                        ((∅ : gmap string (gmap string Q)) !! "position"%string) = None)
    as H by reflexivity.
  split; [exact H |].
  exact (set_goal_fallback_total "centre" ∅ H).
Defined.

Lemma counted_high_water (prev : Z) (rs : list Z) :
  counted prev rs = (high_water prev rs - prev)%Z /\ (prev <= high_water prev rs)%Z.
Proof.
  unfold high_water. revert prev.
  induction rs as [| r rs IH]; intros prev; cbn [counted fold_left].
  - lia.
  - destruct (Z.ltb_spec prev r) as [Hlt | Hge].
    + destruct (IH r) as [-> Hle].
      replace (Z.max prev r) with r by lia. lia.
    + destruct (IH prev) as [-> Hle].
      replace (Z.max prev r) with prev by lia. lia.
Qed.

Lemma pick_heading_angle (field : list planner.heading) (g ow gw thr : Q) :
  fst (planner.pick_heading field g ow gw thr) = 0 \/
  In (fst (planner.pick_heading field g ow gw thr)) (map fst field).
Proof.
  unfold planner.pick_heading.
  rewrite (fold_left_pointwise (planner.safe_step g ow gw thr) (min_step (key_safe g ow gw thr))
             field (0, Inf) (safe_step_min_step g ow gw thr)).
  destruct (fold_min_step (key_safe g ow gw thr) field 0)
    as [[_ ->] | (e & s & (pre & post & Hl & Hk & _) & ->)]; cbn [snd is_inf fst].
  - rewrite (fold_left_pointwise (planner.any_step g ow gw) (min_step (key_any g ow gw))
               field (0, Inf) (any_step_min_step g ow gw)).
    destruct (fold_min_step (key_any g ow gw) field 0)
      as [[Hnone ->] | (e & s & (pre & post & Hl & Hk & _) & ->)]; cbn [snd fst].
    + left. reflexivity.
    + right. rewrite Hl. apply in_map, in_elt.
  - right. rewrite Hl. apply in_map, in_elt.
Qed.

Lemma linspace_within (start stop a : Q) (num : nat) :
  start < stop -> In a (vision.linspace start stop num) -> start <= a /\ a <= stop.
Proof.
  intros Hlt. destruct num as [| [| n]].
  - intros [].
  - cbn. intros [<- | []]. lra.
  - apply linspace_bounds. exact Hlt.
Qed.

Section episode_bounds.
Variable Image : Type.
Variable obstacle_mask : Image -> vision.Mask.
Variable tan_deg : Q -> Q.
Variable atan2_deg : Q -> Q -> Q.
Variable cfg : agent.NavigatorConfig.
Variable goal : gmap string Q.

Local Abbreviation tick := (agent.tick Image obstacle_mask tan_deg atan2_deg cfg goal).
Local Abbreviation loop := (agent.loop Image obstacle_mask tan_deg atan2_deg cfg goal).
Local Abbreviation Obs := (agent.Obs Image).

(** The step counter against the budget. *)
Lemma loop_steps (env : nat -> Obs) (fuel : nat) :
  forall (i : nat) (st : agent.State) (e : agent.exit) (total : Z) (steps : nat)
         (l : list agent.TickLog),
    (agent.steps st <= agent.MAX_STEPS cfg)%nat ->
    loop env fuel i st = (agent.Returned e total steps, l) ->
    match e with
    | agent.STEP_LIMIT_EXCEEDED => steps = agent.MAX_STEPS cfg
    | agent.GOAL_REACHED => (steps < agent.MAX_STEPS cfg)%nat
    end.
Proof.
  induction fuel as [| fuel IH]; intros i st e total steps l Hle; cbn [agent.loop].
  - discriminate.
  - destruct (Nat.ltb_spec (agent.steps st) (agent.MAX_STEPS cfg)) as [Hlt | Hge].
    + destruct (frame Image (env i)) as [[im p] |] eqn:Hf.
      * destruct (tick_frame Image obstacle_mask tan_deg atan2_deg cfg goal
                    (env i) st im p Hf)
          as [-> | [(t & _ & -> & _) | (t & _ & -> & _)]].
        -- discriminate.
        -- destruct (agent.loop _ _ _ _ _ _ env fuel (S i) _) as [o' l'] eqn:Hloop.
           intros [= -> <-]. eapply IH; [| exact Hloop]. cbn [agent.steps]. lia.
        -- intros [= <- <- <- <-]. cbn [agent.steps]. exact Hlt.
      * rewrite (tick_retry Image obstacle_mask tan_deg atan2_deg cfg goal (env i) st Hf).
        apply IH. exact Hle.
    + intros [= <- <- <- <-]. lia.
Qed.

(** The command planned in a tick. *)
Lemma tick_planned (o : Obs) (st st' : agent.State) (t : agent.TickLog) :
  tick o st = agent.Next st' t \/ tick o st = agent.Break st' t ->
  distance (agent.planned t) = agent.STEP_DIST cfg /\
  (turn (agent.planned t) = 0 \/
   In (turn (agent.planned t))
      (vision.linspace (- agent.FOV_DEG cfg / 2) (agent.FOV_DEG cfg / 2)
                       (agent.NUM_HEADINGS cfg))).
Proof.
  unfold agent.tick.
  destruct (agent.img Image o) as [im |]; [| intros [|]; discriminate].
  destruct (agent.pos Image o) as [p |]; [| intros [|]; discriminate].
  destruct (vision.sample_headings _ _ _ _) as [headings |] eqn:Hs;
    [| intros [|]; discriminate].
  destruct (planner.goal_bearing_from_position _ _ _ _ _) as [gb |];
    [| intros [|]; discriminate].
  pose proof (pick_heading_angle headings gb (agent.OBS_W cfg) (agent.GOAL_W cfg)
                (agent.SAFE_THR cfg)) as Hang.
  rewrite (sample_headings_angles _ _ _ _ _ Hs) in Hang.
  destruct (planner.pick_heading _ _ _ _ _) as [ang sc]. cbn [fst] in Hang.
  destruct (agent.coll_prev st <? agent.collisions Image o)%Z;
    destruct (planner.close_to_goal p goal (agent.GOAL_RADIUS cfg)) as [[|] |];
    intros [H | H]; try discriminate; injection H as <- <-;
    cbn [agent.planned planner.step_from_heading turn distance]; auto.
Qed.

Lemma loop_planned (env : nat -> Obs) (fuel : nat) :
  forall (i : nat) (st : agent.State) (t : agent.TickLog),
    In t (snd (loop env fuel i st)) ->
    distance (agent.planned t) = agent.STEP_DIST cfg /\
    (turn (agent.planned t) = 0 \/
     In (turn (agent.planned t))
        (vision.linspace (- agent.FOV_DEG cfg / 2) (agent.FOV_DEG cfg / 2)
                         (agent.NUM_HEADINGS cfg))).
Proof.
  induction fuel as [| fuel IH]; intros i st t; cbn [agent.loop].
  - intros [].
  - destruct (agent.steps st <? agent.MAX_STEPS cfg)%nat; [| intros []].
    destruct (tick (env i) st) as [| | st' t' | st' t'] eqn:Ht.
    + apply IH.
    + intros [].
    + destruct (agent.loop _ _ _ _ _ _ env fuel (S i) st') as [o' l'] eqn:Hloop.
      cbn [snd]. intros [<- | Hin].
      * apply (tick_planned (env i) st st'). left. exact Ht.
      * apply (IH (S i) st'). rewrite Hloop. exact Hin.
    + cbn [snd]. intros [<- | []].
      apply (tick_planned (env i) st st'). right. exact Ht.
Qed.
End episode_bounds.

(** X20.  The step count that [run] returns never exceeds the budget:
    it is [MAX_STEPS] exactly when the loop ends by its condition and
    is below [MAX_STEPS] when it ends at the goal; it is the number of
    processed ticks, the exit tick at the goal apart. *)
Theorem run_steps_within_budget (Image : Type) (obstacle_mask : Image -> vision.Mask)
    (tan_deg : Q -> Q) (atan2_deg : Q -> Q -> Q) (cfg : agent.NavigatorConfig)
    (corner : string) (resp : gmap string (gmap string Q)) (c0 : Z)
    (env : nat -> agent.Obs Image) (fuel : nat)
    (e : agent.exit) (total : Z) (steps : nat) (log : list agent.TickLog) :
  agent.run Image obstacle_mask tan_deg atan2_deg cfg corner resp c0 env fuel
  = (agent.Returned e total steps, log) ->
  (steps <= agent.MAX_STEPS cfg)%nat /\
  match e with
  | agent.STEP_LIMIT_EXCEEDED => steps = agent.MAX_STEPS cfg /\ length log = steps
  | agent.GOAL_REACHED => (steps < agent.MAX_STEPS cfg)%nat /\ length log = S steps
  end.
Proof.
  unfold agent.run.
  destruct (agent.set_goal corner resp) as [goal |]; [| discriminate].
  intros Hrun.
  pose proof (loop_steps Image obstacle_mask tan_deg atan2_deg cfg goal env fuel
                0%nat (agent.mkState 0 c0 0) e total steps log
                ltac:(cbn; lia) Hrun) as Hsteps.
  apply loop_log in Hrun as [_ Hret].
  destruct (Hret e total steps eq_refl) as [_ Hlog]. cbn [agent.steps] in Hlog.
  destruct e.
  - destruct Hlog as (_ & l' & t & -> & -> & _).
    split; [lia |]. split; [exact Hsteps |]. rewrite length_app. cbn. lia.
  - destruct Hlog as (-> & _). split; [lia |]. split; [exact Hsteps | reflexivity].
Qed.

Lemma run_steps_within_budget_witness :
  exists total steps log,
    agent.run vision.Mask (fun m => m) (fun _ => 0) (fun _ _ => 0) (config_with_steps 5)
              "NE" ∅ 0 (env_at origin []) 6
    = (agent.Returned agent.STEP_LIMIT_EXCEEDED total steps, log) /\
    (steps <= 5)%nat /\ steps = 5%nat /\ length log = steps.
Proof.
  eexists _, _, _.
  assert (agent.run vision.Mask (fun m => m) (fun _ => 0) (fun _ _ => 0)
                    (config_with_steps 5) "NE" ∅ 0 (env_at origin []) 6
          = (agent.Returned agent.STEP_LIMIT_EXCEEDED 0 5,
             snd (agent.run vision.Mask (fun m => m) (fun _ => 0) (fun _ _ => 0)
                            (config_with_steps 5) "NE" ∅ 0 (env_at origin []) 6)))
    as Hrun by (vm_compute; reflexivity).
  split; [exact Hrun |].
  exact (run_steps_within_budget _ _ _ _ _ _ _ _ _ _ _ _ _ _ Hrun).
Defined.

(** X21.  The total that [run] returns is the high-water mark of the
    collision counter minus the snapshot taken before the loop, for any
    readings: a counter that falls, as after a reset of the server, adds
    nothing until it passes its previous maximum, and the total is
    never negative. *)
Theorem run_total_high_water (Image : Type) (obstacle_mask : Image -> vision.Mask)
    (tan_deg : Q -> Q) (atan2_deg : Q -> Q -> Q) (cfg : agent.NavigatorConfig)
    (corner : string) (resp : gmap string (gmap string Q)) (c0 : Z)
    (env : nat -> agent.Obs Image) (fuel : nat)
    (e : agent.exit) (total : Z) (steps : nat) (log : list agent.TickLog) :
  agent.run Image obstacle_mask tan_deg atan2_deg cfg corner resp c0 env fuel
  = (agent.Returned e total steps, log) ->
  total = (high_water c0 (map agent.reading log) - c0)%Z /\ (0 <= total)%Z.
Proof.
  unfold agent.run.
  destruct (agent.set_goal corner resp) as [goal |]; [| discriminate].
  intros Hrun. apply loop_log in Hrun as [_ Hret].
  destruct (Hret e total steps eq_refl) as [-> _].
  cbn [agent.total_collisions agent.coll_prev].
  destruct (counted_high_water c0 (map agent.reading log)) as [-> Hle]. lia.
Qed.

Lemma run_total_high_water_witness :
  exists total steps log,
    agent.run vision.Mask (fun m => m) (fun _ => 0) (fun _ _ => 0) (config_with_steps 5)
              "NE" ∅ 2 (env_at origin [3; 0; 1; 3; 4]%Z) 6
    = (agent.Returned agent.STEP_LIMIT_EXCEEDED total steps, log) /\
    map agent.reading log = [3; 0; 1; 3; 4]%Z /\ total = 2%Z.
Proof.
  eexists _, _, _.
  assert (agent.run vision.Mask (fun m => m) (fun _ => 0) (fun _ _ => 0)
                    (config_with_steps 5) "NE" ∅ 2 (env_at origin [3; 0; 1; 3; 4]%Z) 6
          = (agent.Returned agent.STEP_LIMIT_EXCEEDED 2 5,
             snd (agent.run vision.Mask (fun m => m) (fun _ => 0) (fun _ _ => 0)
                            (config_with_steps 5) "NE" ∅ 2
                            (env_at origin [3; 0; 1; 3; 4]%Z) 6)))
    as Hrun by (vm_compute; reflexivity).
  split; [exact Hrun |]. split; [vm_compute; reflexivity |].
  exact (proj1 (run_total_high_water _ _ _ _ _ _ _ _ _ _ _ _ _ _ Hrun)).
Defined.

(** X23.  Every command that [run] plans moves by [STEP_DIST] and turns
    by an angle within half the field of view: with a positive field
    of view the turn of each planned command lies in
    [-FOV_DEG/2, +FOV_DEG/2] (it is one of the sampled headings, or
    zero when no heading has a numeric cost). *)
Theorem run_planned_commands (Image : Type) (obstacle_mask : Image -> vision.Mask)
    (tan_deg : Q -> Q) (atan2_deg : Q -> Q -> Q) (cfg : agent.NavigatorConfig)
    (corner : string) (resp : gmap string (gmap string Q)) (c0 : Z)
    (env : nat -> agent.Obs Image) (fuel : nat) (t : agent.TickLog) :
  0 < agent.FOV_DEG cfg ->
  In t (snd (agent.run Image obstacle_mask tan_deg atan2_deg cfg corner resp c0 env fuel)) ->
  distance (agent.planned t) = agent.STEP_DIST cfg /\
  - agent.FOV_DEG cfg / 2 <= turn (agent.planned t) /\
  turn (agent.planned t) <= agent.FOV_DEG cfg / 2.
Proof.
  intros Hfov. unfold agent.run.
  destruct (agent.set_goal corner resp) as [goal |]; [| intros []].
  intros Hin.
  destruct (loop_planned Image obstacle_mask tan_deg atan2_deg cfg goal env fuel
              0%nat (agent.mkState 0 c0 0) t Hin) as [Hd Ht].
  split; [exact Hd |].
  assert (- agent.FOV_DEG cfg / 2 < agent.FOV_DEG cfg / 2) as Hlt
    by (unfold Qdiv; apply Qmult_lt_compat_r; [reflexivity | lra]).
  destruct Ht as [-> | Ht].
  - assert (0 < agent.FOV_DEG cfg / 2) as Hh
      by (apply Qlt_shift_div_l; [reflexivity | lra]).
    assert (- agent.FOV_DEG cfg / 2 == - (agent.FOV_DEG cfg / 2)) as Hn by field.
    split; [rewrite Hn; lra | lra].
  - apply (linspace_within _ _ _ _ Hlt Ht).
Qed.

Lemma run_planned_commands_witness :
  0 < agent.FOV_DEG (config_with_steps 6) /\
  Forall (fun t => distance (agent.planned t) = 4 /\
                   - (120) / 2 <= turn (agent.planned t) /\
                   turn (agent.planned t) <= 120 / 2)
         (snd six_ticks).
Proof.
  assert (0 < agent.FOV_DEG (config_with_steps 6)) as Hfov by reflexivity.
  split; [exact Hfov |].
  apply List.Forall_forall. intros t Hin.
  exact (run_planned_commands vision.Mask (fun m => m) (fun _ => 0) (fun _ _ => 0)
           (config_with_steps 6) "NE" ∅ 0 (env_at origin [0; 0; 1; 1; 3; 3]%Z) 10 t
           Hfov Hin).
Defined.

(** ** The shared state of the server *)

Lemma on_message_count (g : server.Globals) (m : server.Received) :
  server.collision_count (server.on_message g m)
  = (server.collision_count g + (if is_collision (Message m) then 1 else 0))%Z.
Proof.
  unfold server.on_message, is_collision. destruct m as [| data]; [lia |].
  destruct (server.type_is data "collision" && server.msg_collision data); [reflexivity |].
  destruct (server.type_is data "capture_image_response"), (server.image_queue g);
    try destruct (server.type_is data "goal_reached"); cbn; lia.
Qed.

Lemma after_count (events : list Event) (g : server.Globals) :
  ~ In ResetCall events ->
  server.collision_count (after events g)
  = (server.collision_count g + collisions_in events)%Z.
Proof.
  unfold after, collisions_in. revert g.
  induction events as [| ev events IH]; intros g Hno; cbn [foldl List.filter].
  - cbn. lia.
  - rewrite IH by (intros Hin; apply Hno; right; exact Hin).
    destruct ev as [m | |].
    + cbn [handle]. rewrite on_message_count.
      destruct (is_collision (Message m)); cbn [length]; lia.
    + exfalso. apply Hno. left. reflexivity.
    + cbn [handle is_collision].
      destruct (server.image_queue g) as [[| item q] |]; reflexivity.
Qed.

(** X24.  The count that [/collisions] and [/status] report is the
    number of collision messages received since the last [/reset]
    (messages of type ["collision"] with a true ["collision"] field;
    unreadable messages and all others leave it alone): without a reset
    it is the count before plus their number, hence never decreases,
    and a reset starts it again from zero. *)
Theorem collisions_since_reset (before events : list Event) (g : server.Globals) :
  ~ In ResetCall events ->
  server.get_collisions (after events g)
  = (server.get_collisions g + collisions_in events)%Z /\
  (server.get_collisions g <= server.get_collisions (after events g))%Z /\
  server.get_collisions (after (before ++ ResetCall :: events) g) = collisions_in events.
Proof.
  intros Hno. unfold server.get_collisions.
  rewrite (after_count events g Hno).
  split; [reflexivity |]. split; [unfold collisions_in; lia |].
  unfold after. rewrite foldl_app. cbn [foldl handle].
  fold (after events (server.reset (foldl handle g before))).
  rewrite after_count by exact Hno. reflexivity.
Qed.

Lemma collisions_since_reset_witness :
  ~ In ResetCall [collision_msg; capture_msg 0; collision_msg] /\
  server.get_collisions
    (after [collision_msg; ResetCall; collision_msg; capture_msg 0; collision_msg]
           idle_globals) = 2%Z.
Proof.
  assert (~ In ResetCall [collision_msg; capture_msg 0; collision_msg]) as Hno.
  { intros [H | [H | [H | []]]]; discriminate. }
  split; [exact Hno |].
  exact (proj2 (proj2 (collisions_since_reset [collision_msg]
                         [collision_msg; capture_msg 0; collision_msg]
                         idle_globals Hno))).
Defined.

Lemma take_take_app {A : Type} (n : nat) (l r : list A) :
  take n (take n l ++ r) = take n (l ++ r).
Proof.
  revert l. induction n as [| n IH]; intros l; [reflexivity |].
  destruct l as [| a l]; cbn; [reflexivity |]. f_equal. apply IH.
Qed.

Lemma type_capture_not_collision (data : server.SimMessage) :
  server.type_is data "capture_image_response" = true ->
  server.type_is data "collision" = false.
Proof.
  unfold server.type_is. destruct (server.msg_type data) as [t |]; [| discriminate].
  intros H. apply String.eqb_eq in H. subst t. reflexivity.
Qed.

Lemma handle_queue_bound (g : server.Globals) (ev : Event) (q : list server.SimMessage) :
  server.image_queue g = Some q -> (length q <= server.queue_maxsize)%nat ->
  exists q', server.image_queue (handle g ev) = Some q' /\
             (length q' <= server.queue_maxsize)%nat.
Proof.
  intros Hq Hlen. destruct ev as [[| data] | |]; cbn [handle server.on_message].
  - exists q. auto.
  - destruct (server.type_is data "collision" && server.msg_collision data);
      [exists q; auto |].
    rewrite Hq.
    destruct (server.type_is data "capture_image_response").
    + unfold server.put_nowait.
      destruct (Nat.ltb_spec (length q) server.queue_maxsize) as [Hlt | Hge].
      * eexists. split; [reflexivity |]. rewrite length_app. cbn. lia.
      * exists q. auto.
    + destruct (server.type_is data "goal_reached"); exists q; auto.
  - exists q. auto.
  - rewrite Hq. destruct q as [| item q]; cbn [server.queue_get].
    + exists []. rewrite Hq. auto.
    + exists q. split; [reflexivity |]. cbn in Hlen. lia.
Qed.

Lemma handle_queue_put (g : server.Globals) (ev : Event) (q : list server.SimMessage) :
  server.image_queue g = Some q -> (length q <= server.queue_maxsize)%nat ->
  ev <> ControllerGet ->
  server.image_queue (handle g ev)
  = Some (take server.queue_maxsize (q ++ captures_in [ev])).
Proof.
  intros Hq Hlen Hev.
  assert (take server.queue_maxsize q = q) as Hfull by (apply take_ge; exact Hlen).
  destruct ev as [[| data] | |]; cbn [handle server.on_message captures_in];
    try congruence.
  - rewrite app_nil_r, Hfull. exact Hq.
  - destruct (server.type_is data "capture_image_response") eqn:Hcap.
    + rewrite (type_capture_not_collision data Hcap). cbn [andb]. rewrite Hq.
      unfold server.put_nowait.
      destruct (Nat.ltb_spec (length q) server.queue_maxsize) as [Hlt | Hge].
      * cbn [server.image_queue]. f_equal. symmetry. apply take_ge.
        rewrite length_app. cbn. lia.
      * cbn [server.image_queue]. f_equal.
        rewrite take_app_le by lia. symmetry. exact Hfull.
    + rewrite app_nil_r, Hfull.
      destruct (server.type_is data "collision" && server.msg_collision data);
        [exact Hq |].
      destruct (server.image_queue g) as [q0 |] eqn:Hq0;
        destruct (server.type_is data "goal_reached"); cbn [server.image_queue];
        congruence.
  - rewrite app_nil_r, Hfull. exact Hq.
Qed.

Lemma captures_in_cons (ev : Event) (events : list Event) :
  captures_in (ev :: events) = captures_in [ev] ++ captures_in events.
Proof.
  destruct ev as [[| data] | |]; cbn [captures_in]; try reflexivity.
  destruct (server.type_is data "capture_image_response"); reflexivity.
Qed.

(** X25.  The frame queue never holds more than two frames, and a
    frame that arrives while it is full is dropped: as long as the
    controller takes nothing, the queue holds the two oldest capture
    responses that are waiting, in their order of arrival, and every
    later one is lost. *)
Theorem image_queue_keeps_oldest (events : list Event) (g : server.Globals)
    (q : list server.SimMessage) :
  server.image_queue g = Some q -> (length q <= server.queue_maxsize)%nat ->
  (exists q', server.image_queue (after events g) = Some q' /\
              (length q' <= server.queue_maxsize)%nat) /\
  (~ In ControllerGet events ->
   server.image_queue (after events g)
   = Some (take server.queue_maxsize (q ++ captures_in events))).
Proof.
  unfold after. revert g q.
  induction events as [| ev events IH]; intros g q Hq Hlen; cbn [foldl].
  - split; [exists q; auto |]. intros _. cbn [captures_in].
    rewrite app_nil_r, take_ge by exact Hlen. exact Hq.
  - destruct (handle_queue_bound g ev q Hq Hlen) as (q1 & Hq1 & Hlen1).
    destruct (IH (handle g ev) q1 Hq1 Hlen1) as [Hbound Hkeep].
    split; [exact Hbound |].
    intros Hno. rewrite Hkeep by (intros Hin; apply Hno; right; exact Hin).
    assert (ev <> ControllerGet) as Hev by (intros ->; apply Hno; left; reflexivity).
    rewrite (handle_queue_put g ev q Hq Hlen Hev) in Hq1. injection Hq1 as <-.
    rewrite take_take_app, (captures_in_cons ev events), app_assoc. reflexivity.
Qed.

Lemma image_queue_keeps_oldest_witness :
  option_map (map server.msg_headingDeg)
             (server.image_queue
                (after [capture_msg 1; collision_msg; capture_msg 2; capture_msg 3]
                       idle_globals))
  = Some [Some 1; Some 2].
Proof.
  assert (server.image_queue idle_globals = Some []) as Hq by reflexivity.
  assert (length (@nil server.SimMessage) <= server.queue_maxsize)%nat as Hlen
    by (cbn; lia).
  assert (~ In ControllerGet [capture_msg 1; collision_msg; capture_msg 2; capture_msg 3])
    as Hno.
  { intros [H | [H | [H | [H | []]]]]; discriminate. }
  rewrite (proj2 (image_queue_keeps_oldest
                    [capture_msg 1; collision_msg; capture_msg 2; capture_msg 3]
                    idle_globals [] Hq Hlen) Hno).
  reflexivity.
Defined.

(** ** The goal request, from the navigator to the server *)

(** X26.  Against this server the goal of the navigator is the corner
    of the server: with a simulator connected, [Navigator.set_goal]
    ends with the coordinates of [corner_to_coords] for every corner
    string, and its own table is not consulted; with none connected the
    request is answered with status 400 and [set_goal] raises. *)
Theorem navigator_goal_from_server (corner : string) :
  navigator_goal true corner
  = Some (inject_Z <$> server.corner_to_coords corner server.default_margin) /\
  navigator_goal false corner = None.
Proof.
  split; [| reflexivity].
  unfold navigator_goal, sim_api.set_goal_corner, server.set_goal.
  cbn [server.req_corner].
  destruct (corner_to_coords_shape corner server.default_margin)
    as (x & z & -> & Hx & Hz).
  destruct Hx as [-> | ->], Hz as [-> | ->]; vm_compute; reflexivity.
Qed.

(** ** The capture of the client *)

Lemma append_cons (a : ascii) (s t : string) :
  String.append (String a s) t = String a (String.append s t).
Proof. reflexivity. Qed.

Lemma append_empty (t : string) : String.append EmptyString t = t.
Proof. reflexivity. Qed.

Lemma split_comma_app (header payload : string) :
  split_comma header = None ->
  split_comma (String.append header (String "," payload)) = Some (header, payload).
Proof.
  induction header as [| a header IH].
  - intros _. reflexivity.
  - rewrite append_cons. cbn [split_comma].
    destruct (Ascii.eqb a ","); [discriminate |].
    destruct (split_comma header) as [[before rest] |]; [discriminate |].
    intros _. rewrite IH by reflexivity. reflexivity.
Qed.

Lemma prefix_before_comma (p header payload : string) :
  split_comma p = None ->
  String.prefix p (String.append header (String "," payload)) = String.prefix p header.
Proof.
  revert header. induction p as [| c p IH]; intros header Hp.
  - destruct header; reflexivity.
  - cbn [split_comma] in Hp.
    destruct (Ascii.eqb_spec c ",") as [-> | Hc]; [discriminate |].
    destruct (split_comma p) as [[before rest] |]; [discriminate |].
    destruct header as [| a header].
    + rewrite append_empty. cbn [String.prefix].
      destruct (ascii_dec c ","); [contradiction | reflexivity].
    + rewrite append_cons. cbn [String.prefix].
      destruct (ascii_dec c a); [apply IH; reflexivity | reflexivity].
Qed.

(** X27.  The header of a data URL is stripped alike on both sides, for
    images: for a header without a comma, the server decodes what
    follows the first comma, and so does the client when the header
    starts with [data:image]; a data URL of another kind is stripped by
    the server but handed whole to the decoder by the client. *)
Theorem data_url_payload (header payload : string) :
  split_comma header = None ->
  let url := String.append header (String "," payload) in
  server.datauri_payload url = payload /\
  sim_api.image_base64 url
  = if String.prefix "data:image" header then payload else url.
Proof.
  intros Hh url. unfold url, server.datauri_payload, sim_api.image_base64.
  rewrite (split_comma_app header payload Hh).
  rewrite (prefix_before_comma "data:image" header payload eq_refl).
  split; reflexivity.
Qed.

Lemma data_url_payload_witness :
  server.datauri_payload "data:image/png;base64,iVBORw0KGgo=" = "iVBORw0KGgo="%string /\
  sim_api.image_base64 "data:image/png;base64,iVBORw0KGgo=" = "iVBORw0KGgo="%string.
Proof.
  assert (split_comma "data:image/png;base64" = None) as Hh by reflexivity.
  exact (data_url_payload "data:image/png;base64" "iVBORw0KGgo=" Hh).
Defined.

Lemma poll_Some (last : option Z) (answers : list (option sim_api.LastCapture))
    (data : sim_api.LastCapture) :
  sim_api.poll last answers = Some data ->
  In (Some data) answers /\
  exists ts, sim_api.timestamp data = Some ts /\ sim_api.same_timestamp last ts = false.
Proof.
  induction answers as [| [d |] answers IH]; cbn [sim_api.poll].
  - discriminate.
  - destruct (sim_api.timestamp d) as [ts |] eqn:Hts.
    + destruct (sim_api.same_timestamp last ts) eqn:Hsame.
      * intros H. destruct (IH H) as [Hin Hrest]. split; [right; exact Hin | exact Hrest].
      * intros [= <-]. split; [left; reflexivity |]. exists ts. auto.
    + intros H. destruct (IH H) as [Hin Hrest]. split; [right; exact Hin | exact Hrest].
  - intros H. destruct (IH H) as [Hin Hrest]. split; [right; exact Hin | exact Hrest].
Qed.

Lemma Qtrunc_inject_Z (q : Q) (k : Z) : q == inject_Z k -> vision.Qtrunc q = k.
Proof.
  intros Hq. unfold vision.Qtrunc.
  assert (Qfloor q = k) as Hf by (rewrite Hq; apply Qfloor_Z).
  assert (Qceiling q = k) as Hc by (rewrite Hq; apply Qceiling_Z).
  destruct (Qltb q 0); congruence.
Qed.

(** X28.  [capture] never returns the frame it returned before, for
    whole-number timestamps: either every answer was missing, without
    timestamp or stale, and the result is [(None, None, None)] with the
    remembered timestamp unchanged; or the result carries the position
    of the first fresh answer and its timestamp, which differs from
    the one remembered and is remembered in its place. *)
Theorem capture_fresh (Image : Type) (imdecode : string -> option Image)
    (last : option Z) (answers : list (option sim_api.LastCapture)) :
  integer_stamped answers ->
  (sim_api.capture Image imdecode last answers = ((None, None, None), last) /\
   sim_api.poll last answers = None) \/
  (exists data k img,
     sim_api.capture Image imdecode last answers
     = ((img, sim_api.position data, Some k), Some k) /\
     In (Some data) answers /\ last <> Some k /\
     exists q, sim_api.timestamp data = Some (sim_api.TsNumber q) /\ q == inject_Z k).
Proof.
  intros Hint. unfold sim_api.capture.
  destruct (sim_api.poll last answers) as [data |] eqn:Hpoll; [right | left; auto].
  destruct (poll_Some last answers data Hpoll) as (Hin & ts & Hts & Hfresh).
  destruct (Hint data ts Hin Hts) as (q & k & -> & Hq).
  exists data, k. eexists. rewrite Hts, (Qtrunc_inject_Z q k Hq).
  split; [reflexivity |]. split; [exact Hin |]. split.
  - intros ->. cbn [sim_api.same_timestamp] in Hfresh.
    apply Qeq_bool_neq in Hfresh. contradiction.
  - exists q. auto.
Qed.

Lemma capture_fresh_witness :
  let answers := [None; Some (capture_at 7); Some (capture_at 8); Some (capture_at 9)] in
  integer_stamped answers /\
  ((sim_api.capture vision.Mask (fun _ => Some demo_mask) (Some 7%Z) answers
    = ((None, None, None), Some 7%Z) /\
    sim_api.poll (Some 7%Z) answers = None) \/
   (exists data k img,
      sim_api.capture vision.Mask (fun _ => Some demo_mask) (Some 7%Z) answers
      = ((img, sim_api.position data, Some k), Some k) /\
      In (Some data) answers /\ Some 7%Z <> Some k /\
      exists q, sim_api.timestamp data = Some (sim_api.TsNumber q) /\ q == inject_Z k)).
Proof.
  intros answers.
  assert (integer_stamped answers) as Hint.
  { intros data ts Hin Hts.
    destruct Hin as [H | [H | [H | [H | []]]]]; try discriminate;
      injection H as <-; injection Hts as <-.
    - exists 7, 7%Z. split; reflexivity.
    - exists 8, 8%Z. split; reflexivity.
    - exists 9, 9%Z. split; reflexivity. }
  split; [exact Hint |].
  exact (capture_fresh vision.Mask (fun _ => Some demo_mask) (Some 7%Z) answers Hint).
Defined.

(** X29.  A timestamp that is not a whole number defeats the test for
    a stale frame: what is remembered is its integer part, which the
    same timestamp never equals, so an answer that does not change is
    returned by every call of [capture] again. *)
Theorem capture_fractional_repeats (Image : Type) (imdecode : string -> option Image)
    (last : option Z) (data : sim_api.LastCapture) (q : Q) :
  sim_api.timestamp data = Some (sim_api.TsNumber q) ->
  ~ q == inject_Z (vision.Qtrunc q) ->
  exists img,
    sim_api.capture Image imdecode last [Some data]
    = ((img, sim_api.position data, Some (vision.Qtrunc q)), Some (vision.Qtrunc q)) /\
    sim_api.capture Image imdecode (Some (vision.Qtrunc q)) [Some data]
    = ((img, sim_api.position data, Some (vision.Qtrunc q)), Some (vision.Qtrunc q)).
Proof.
  intros Hts Hfrac. unfold sim_api.capture. cbn [sim_api.poll]. rewrite Hts.
  assert (forall l, sim_api.same_timestamp l (sim_api.TsNumber q) = false) as Hfresh.
  { intros [l |]; [| reflexivity]. cbn [sim_api.same_timestamp].
    destruct (Qeq_bool q (inject_Z l)) eqn:E; [| reflexivity].
    apply Qeq_bool_eq in E. exfalso. apply Hfrac.
    rewrite (Qtrunc_inject_Z q l E). exact E. }
  rewrite !Hfresh. rewrite Hts. eexists. split; reflexivity.
Qed.

Lemma capture_fractional_repeats_witness :
  exists img,
    sim_api.capture vision.Mask (fun _ => Some demo_mask) (Some 1%Z)
                    [Some (capture_at (3 # 2))]
    = ((img, Some origin, Some 1%Z), Some 1%Z).
Proof.
  assert (sim_api.timestamp (capture_at (3 # 2)) = Some (sim_api.TsNumber (3 # 2)))
    as Hts by reflexivity.
  assert (~ (3 # 2) == inject_Z (vision.Qtrunc (3 # 2))) as Hfrac
    by (vm_compute; discriminate).
  destruct (capture_fractional_repeats vision.Mask (fun _ => Some demo_mask) (Some 1%Z)
              (capture_at (3 # 2)) (3 # 2) Hts Hfrac) as (img & _ & H).
  exists img. exact H.
Defined.

(** ** The navigator against this server *)

Lemma poll_nothing (last : option Z) (answers : list (option sim_api.LastCapture)) :
  (forall a, In a answers -> a = None) -> sim_api.poll last answers = None.
Proof.
  induction answers as [| a answers IH]; intros Hnone; [reflexivity |].
  rewrite (Hnone a) by (left; reflexivity). cbn [sim_api.poll].
  apply IH. intros a' Ha'. apply Hnone. right. exact Ha'.
Qed.

Lemma loop_starves (Image : Type) (obstacle_mask : Image -> vision.Mask)
    (tan_deg : Q -> Q) (atan2_deg : Q -> Q -> Q) (cfg : agent.NavigatorConfig)
    (goal : gmap string Q) (env : nat -> agent.Obs Image) (fuel : nat) :
  (forall i, frame Image (env i) = None) ->
  forall (i : nat) (st : agent.State),
    (agent.steps st < agent.MAX_STEPS cfg)%nat ->
    agent.loop Image obstacle_mask tan_deg atan2_deg cfg goal env fuel i st
    = (agent.OutOfFuel, []).
Proof.
  intros Hnone. induction fuel as [| fuel IH]; intros i st Hlt; [reflexivity |].
  rewrite loop_retry by (auto). apply IH. exact Hlt.
Qed.

(** X30.  Against this server the polling navigator never sees a frame:
    the server registers no route for [GET /last_capture], so
    [_get_last_capture] gives [None] whatever the simulator sent,
    [capture] returns [(None, None, None)], and [run], once [set_goal]
    has succeeded and with a budget of at least one step, repeats its
    loop without processing a tick or sending a command, however long
    it is run. *)
Theorem run_starves_on_this_server (Image : Type) (obstacle_mask : Image -> vision.Mask)
    (tan_deg : Q -> Q) (atan2_deg : Q -> Q -> Q) (cfg : agent.NavigatorConfig)
    (corner : string) (resp : gmap string (gmap string Q)) (c0 : Z)
    (imdecode : string -> option Image) (last : nat -> option Z)
    (polls : nat -> list (option sim_api.LastCapture)) (readings : nat -> Z)
    (fuel : nat) :
  is_Some (agent.set_goal corner resp) -> (1 <= agent.MAX_STEPS cfg)%nat ->
  (forall body, sim_api._get_last_capture server.routed body = None) /\
  (forall i, sim_api.capture Image imdecode (last i)
               (map (sim_api._get_last_capture server.routed) (polls i))
             = ((None, None, None), last i)) /\
  agent.run Image obstacle_mask tan_deg atan2_deg cfg corner resp c0
            (through_server Image imdecode last polls readings) fuel
  = (agent.OutOfFuel, []).
Proof.
  intros [goal Hgoal] Hmax.
  assert (forall body, sim_api._get_last_capture server.routed body = None) as Hget
    by (intros body; reflexivity).
  assert (forall i, sim_api.capture Image imdecode (last i)
                      (map (sim_api._get_last_capture server.routed) (polls i))
                    = ((None, None, None), last i)) as Hcap.
  { intros i. unfold sim_api.capture. rewrite poll_nothing; [reflexivity |].
    intros a Ha. apply in_map_iff in Ha as (body & <- & _). apply Hget. }
  split; [exact Hget |]. split; [exact Hcap |].
  unfold agent.run. rewrite Hgoal.
  apply loop_starves; [| cbn [agent.steps]; lia].
  intros i. unfold through_server. rewrite Hcap. reflexivity.
Qed.

Lemma run_starves_on_this_server_witness :
  is_Some (agent.set_goal "NE" ∅) /\
  (1 <= agent.MAX_STEPS agent.default_config)%nat /\
  agent.run vision.Mask (fun m => m) (fun _ => 0) (fun _ _ => 0) agent.default_config
            "NE" ∅ 0
            (through_server vision.Mask (fun _ => Some demo_mask) (fun _ => None)
               (fun i => [Some (capture_at (inject_Z (Z.of_nat i)))]) (fun _ => 0%Z))
            100
  = (agent.OutOfFuel, []).
Proof.
  assert (is_Some (agent.set_goal "NE" ∅)) as Hgoal by (eexists; vm_compute; reflexivity).
  assert (1 <= agent.MAX_STEPS agent.default_config)%nat as Hmax by (cbn; lia).
  split; [exact Hgoal |]. split; [exact Hmax |].
  exact (proj2 (proj2 (run_starves_on_this_server vision.Mask (fun m => m) (fun _ => 0)
                         (fun _ _ => 0) agent.default_config "NE" ∅ 0
                         (fun _ => Some demo_mask) (fun _ => None)
                         (fun i => [Some (capture_at (inject_Z (Z.of_nat i)))])
                         (fun _ => 0%Z) 100 Hgoal Hmax))).
Defined.
